(** * back40computing: kernel configuration, work distribution and tuned dispatch

    A shallow embedding of
      - [b40c/graph/bfs/compact_expand_atomic/kernel_config.cuh]
        (the [KernelConfig] meta-type: derived constants, the two-channel
        scan operator, the shared-memory structure and the occupancy),
      - [Memcopy/memcopy_api_enactor_tuned.cuh]
        (the tuned memcopy enactor: size-threshold dispatch and byte
        accounting),
      - the work decomposition consumed by the downsweep kernel
        ([util::CtaWorkDistribution::GetCtaWorkLimits]) and the global
        enqueue-offset reservation of the compact-expand kernel.

    Integers are [Z]; compile-time constant expressions whose C++ meaning is
    undefined (a shift by an out-of-range amount, a division by zero)
    evaluate to [None]. *)

From Stdlib Require Import ZArith List Lia Bool Permutation.
Import ListNotations.

Local Open Scope Z_scope.

(* ================================================================== *)
(** ** Constant expressions *)
(* ================================================================== *)

Module ConstExpr.

(** Largest value of a 32-bit [int]. *)
Definition INT_MAX : Z := 2 ^ 31 - 1.

(** Conversion to a 32-bit [int] keeps the low 32 bits (two's complement). *)
Definition to_int (z : Z) : Z := (z + 2 ^ 31) mod 2 ^ 32 - 2 ^ 31.

(** [a << k] on [int], for a non-negative [a]: a constant expression when
    the shift amount lies in [0, 32) and the shifted bits fit 32 bits; its
    value is those bits read as an [int], so [1 << 31] is [INT_MIN].  A
    negative or too large shift amount has no value. *)
Definition shl (a k : Z) : option Z :=
  if (0 <=? a) && (0 <=? k) && (k <? 32) && (a * 2 ^ k <? 2 ^ 32)
  then Some (to_int (Z.shiftl a k))
  else None.

(** [a >> k] on [int]: defined when the shift amount lies in [0, 32). *)
Definition shr (a k : Z) : option Z :=
  if (0 <=? k) && (k <? 32) then Some (Z.shiftr a k) else None.

(** [a / b]: truncating division, undefined for a zero divisor. *)
Definition div (a b : Z) : option Z :=
  if b =? 0 then None else Some (Z.quot a b).

Definition bind {A B : Type} (m : option A) (f : A -> option B) : option B :=
  match m with
  | Some a => f a
  | None => None
  end.

(** [size_t] arithmetic wraps modulo [2^64]. *)
Definition size_t (z : Z) : Z := z mod 2 ^ 64.

End ConstExpr.

Notation "x <- m ;; k" := (ConstExpr.bind m (fun x => k))
  (at level 61, m at next level, right associativity).

(* ================================================================== *)
(** ** KernelConfig (kernel_config.cuh) *)
(* ================================================================== *)

Module KernelConfig.
Import ConstExpr.

(** The machine properties [B40C_*(CUDA_ARCH)].  The macros live in
    [b40c/util/cuda_properties.cuh], which is not among the sources, so
    their values at the target architecture are the fields of a record. *)
Record CudaArch : Type := {
  B40C_LOG_WARP_THREADS : Z;
  B40C_WARP_THREADS : Z;
  B40C_SM_CTAS : Z;
  B40C_SM_THREADS : Z;
  B40C_SMEM_BYTES : Z
}.

(** What [KernelConfig] reads from [_ProblemType]. *)
Record ProblemType : Type := {
  sizeof_VertexId : Z;
  sizeof_SizeT : Z;
  MARK_PARENTS : bool
}.

(** The tunable template parameters (the five cache modifiers are only
    re-exported under a new name and are left out). *)
Record Tunables : Type := {
  _MAX_CTA_OCCUPANCY : Z;
  _LOG_THREADS : Z;
  _LOG_LOAD_VEC_SIZE : Z;
  _LOG_LOADS_PER_TILE : Z;
  _LOG_RAKING_THREADS : Z;
  _WORK_STEALING : bool;
  _LOG_SCHEDULE_GRANULARITY : Z
}.

Definition sizeof_uint4 : Z := 16.

(** Modelled from the spec: the macro [B40C_MIN] of the absent
    [b40c/util/basic_utils.cuh]; the occupancy is the "min" of its
    arguments, written as the conditional a macro would expand to. *)
Definition B40C_MIN (a b : Z) : Z := if a <? b then a else b.

(** Modelled from the spec: the macro [B40C_QUADS] of the absent
    [b40c/util/basic_utils.cuh]; the "per-block footprint" counted in
    16-byte quads, i.e. the number of quads needed to hold [bytes] bytes. *)
Definition B40C_QUADS (bytes : Z) : Z :=
  Z.quot (bytes + sizeof_uint4 - 1) sizeof_uint4.

Section Config.
Variable CUDA_ARCH : CudaArch.
Variable P : ProblemType.
Variable T : Tunables.

Definition WORK_STEALING : bool := _WORK_STEALING T.

(** *** The first anonymous [enum] *)

Definition LOG_THREADS : Z := _LOG_THREADS T.
Definition THREADS : option Z := shl 1 LOG_THREADS.

Definition LOG_LOAD_VEC_SIZE : Z := _LOG_LOAD_VEC_SIZE T.
Definition LOAD_VEC_SIZE : option Z := shl 1 LOG_LOAD_VEC_SIZE.

Definition LOG_LOADS_PER_TILE : Z := _LOG_LOADS_PER_TILE T.
Definition LOADS_PER_TILE : option Z := shl 1 LOG_LOADS_PER_TILE.

Definition LOG_LOAD_STRIDE : Z := LOG_THREADS + LOG_LOAD_VEC_SIZE.
Definition LOAD_STRIDE : option Z := shl 1 LOG_LOAD_STRIDE.

Definition LOG_RAKING_THREADS : Z := _LOG_RAKING_THREADS T.
Definition RAKING_THREADS : option Z := shl 1 LOG_RAKING_THREADS.

Definition LOG_WARPS : Z := LOG_THREADS - B40C_LOG_WARP_THREADS CUDA_ARCH.
Definition WARPS : option Z := shl 1 LOG_WARPS.

Definition LOG_TILE_ELEMENTS_PER_THREAD : Z :=
  LOG_LOAD_VEC_SIZE + LOG_LOADS_PER_TILE.
Definition TILE_ELEMENTS_PER_THREAD : option Z :=
  shl 1 LOG_TILE_ELEMENTS_PER_THREAD.

Definition LOG_TILE_ELEMENTS : Z :=
  LOG_TILE_ELEMENTS_PER_THREAD + LOG_THREADS.
Definition TILE_ELEMENTS : option Z := shl 1 LOG_TILE_ELEMENTS.

Definition LOG_SCHEDULE_GRANULARITY : Z := _LOG_SCHEDULE_GRANULARITY T.
Definition SCHEDULE_GRANULARITY : option Z := shl 1 LOG_SCHEDULE_GRANULARITY.

(** *** SmemStorage

    The byte counts of the members of [SmemStorage].  Two of them depend on
    declarations that are not among the sources and enter as variables:
    [sizeof(util::CtaWorkDistribution<SizeT>)] and the constant
    [TOTAL_RAKING_ELEMENTS] of [util::SrtsGrid] ([CoarseGrid] and [FineGrid]
    are the same instantiation, hence share it). *)
Variable sizeof_CtaWorkDistribution : Z.
Variable TOTAL_RAKING_ELEMENTS : Z.

(** [typedef SizeT WarpComm[WARPS][4]]; an array bound that is not
    positive is ill-formed. *)
Definition sizeof_WarpComm : option Z :=
  warps <- WARPS ;;
  if 0 <? warps then Some (warps * 4 * sizeof_SizeT P) else None.

(** [SizeT coarse_warpscan[2][B40C_WARP_THREADS(CUDA_ARCH)]], and the same
    for [fine_warpscan]. *)
Definition sizeof_warpscan : Z :=
  2 * B40C_WARP_THREADS CUDA_ARCH * sizeof_SizeT P.

Definition FULL_OCCUPANCY_BYTES : option Z :=
  share <- div (B40C_SMEM_BYTES CUDA_ARCH) (_MAX_CTA_OCCUPANCY T) ;;
  warp_comm <- sizeof_WarpComm ;;
  Some (size_t (share
                - sizeof_CtaWorkDistribution
                - warp_comm
                - sizeof_warpscan
                - sizeof_warpscan
                - sizeof_SizeT P
                - sizeof_SizeT P
                - 128)).

Definition SCRATCH_ELEMENT_SIZE : Z :=
  if MARK_PARENTS P
  then sizeof_SizeT P + sizeof_VertexId P
  else sizeof_SizeT P.

Definition SCRATCH_ELEMENTS : option Z :=
  full <- FULL_OCCUPANCY_BYTES ;;
  div full SCRATCH_ELEMENT_SIZE.

Definition HASH_ELEMENTS : option Z :=
  full <- FULL_OCCUPANCY_BYTES ;;
  div full (sizeof_VertexId P).

(** The arrays of the three views of the union [smem_pool].  An array of
    [n] elements occupies [n] times the size of an element.  [raking_lanes]
    is two arrays of [SizeT] and [vid_hashtable] is one array of [VertexId],
    so these are their sizes.  [gather_scratch] holds an array of [SizeT]
    followed by an array of [VertexId]: the compiler may pad it for
    alignment, and only the bytes of its two arrays are given.  How the
    compiler lays out the union and the structure is not modelled. *)
Definition sizeof_raking_lanes : Z :=
  TOTAL_RAKING_ELEMENTS * sizeof_SizeT P
  + TOTAL_RAKING_ELEMENTS * sizeof_SizeT P.



(** *** The second anonymous [enum]

    [sizeof(SmemStorage)] is what the compiler lays out; it is an unsigned
    byte count and enters as [sizeof_SmemStorage].  The definitions below
    are the initializers of the enumerators, evaluated for that size; they
    can be read from the class only when the class as a whole is
    well-formed, see [KernelConfig_VALID]. *)
Variable sizeof_SmemStorage : N.

Definition SMEM_QUADS : Z := B40C_QUADS (Z.of_N sizeof_SmemStorage).

Definition THREAD_OCCUPANCY : option Z :=
  shr (B40C_SM_THREADS CUDA_ARCH) LOG_THREADS.

Definition SMEM_OCCUPANCY : option Z :=
  div (B40C_SMEM_BYTES CUDA_ARCH) (SMEM_QUADS * sizeof_uint4).

Definition CTA_OCCUPANCY : option Z :=
  thread_occupancy <- THREAD_OCCUPANCY ;;
  smem_occupancy <- SMEM_OCCUPANCY ;;
  Some (B40C_MIN (_MAX_CTA_OCCUPANCY T)
         (B40C_MIN (B40C_SM_CTAS CUDA_ARCH)
           (B40C_MIN thread_occupancy smem_occupancy))).

Definition VALID : option bool :=
  cta_occupancy <- CTA_OCCUPANCY ;;
  Some (0 <? cta_occupancy).

(** *** The two-channel scan operator

    [SizeT] values are kept as their bit patterns, [0 <= v < 2^bits]; the
    sum of two of them wraps. *)
Definition SizeT_bits : Z := 8 * sizeof_SizeT P.
Definition SizeT_add (a b : Z) : Z := (a + b) mod 2 ^ SizeT_bits.
Definition SizeT_value (v : Z) : Prop := 0 <= v < 2 ^ SizeT_bits.

(** [util::Tuple<SizeT, SizeT>]: [t0] is the coarse channel, [t1] the fine
    channel (the order of [SrtsGridTuple]). *)
Record SoaTuple : Type := mkSoaTuple { t0 : Z; t1 : Z }.

Definition SoaScanOp (first second : SoaTuple) : SoaTuple :=
  mkSoaTuple (SizeT_add (t0 first) (t0 second))
             (SizeT_add (t1 first) (t1 second)).

Definition SoaTupleIdentity : SoaTuple := mkSoaTuple 0 0.

End Config.

(** *** The class as a whole

    [VALID] is a member of the instantiated class.  Instantiating
    [KernelConfig] needs every enumerator of the class and of [SmemStorage]
    to be a constant expression, and [SmemStorage], which contains
    [WarpComm[WARPS][4]], to be a complete type; [SMEM_QUADS] then takes its
    size from the compiler.  [compiler_sizeof] is that size, padding
    included; it is [None] when the compiler rejects the structure for a
    reason of its own, such as an array bound that is negative or an object
    larger than it supports.  So [None] here means that the class is
    rejected, and a value means that every constant expression of the class
    has one. *)
Definition KernelConfig_VALID
  (CUDA_ARCH : CudaArch) (P : ProblemType) (T : Tunables)
  (sizeof_CtaWorkDistribution : Z) (compiler_sizeof : option N)
  : option bool :=
  threads <- THREADS T ;;
  load_vec_size <- LOAD_VEC_SIZE T ;;
  loads_per_tile <- LOADS_PER_TILE T ;;
  load_stride <- LOAD_STRIDE T ;;
  raking_threads <- RAKING_THREADS T ;;
  warps <- WARPS CUDA_ARCH T ;;
  tile_elements_per_thread <- TILE_ELEMENTS_PER_THREAD T ;;
  tile_elements <- TILE_ELEMENTS T ;;
  schedule_granularity <- SCHEDULE_GRANULARITY T ;;
  warp_comm <- sizeof_WarpComm CUDA_ARCH P T ;;
  scratch_elements <-
    SCRATCH_ELEMENTS CUDA_ARCH P T sizeof_CtaWorkDistribution ;;
  hash_elements <- HASH_ELEMENTS CUDA_ARCH P T sizeof_CtaWorkDistribution ;;
  sizeof_SmemStorage <- compiler_sizeof ;;
  VALID CUDA_ARCH T sizeof_SmemStorage.

(** Modelled from the spec: the "exclusive prefix sum" of step ScanRank.
    The raking scan itself ([util::SrtsSoaDetails] and the cooperative scan
    routines) is not among the sources; what it computes is, for every
    position, the combination of all earlier inputs, starting from the
    identity. *)
Fixpoint exclusive_scan {A : Type} (op : A -> A -> A) (acc : A) (xs : list A)
  : list A :=
  match xs with
  | [] => []
  | x :: rest => acc :: exclusive_scan op (op acc x) rest
  end.

End KernelConfig.

(* ================================================================== *)
(** ** Global enqueue-offset reservation *)
(* ================================================================== *)

Module Reservation.

(** The two output channels of the compact-expand kernel; each has a global
    cursor, and [SmemStorage] holds the offset handed to the current tile
    ([coarse_enqueue_offset], [fine_enqueue_offset]). *)
Inductive Channel : Type := Coarse | Fine.

Definition Channel_eqb (a b : Channel) : bool :=
  match a, b with
  | Coarse, Coarse | Fine, Fine => true
  | _, _ => false
  end.

Record Cursors : Type := {
  coarse_cursor : Z;
  fine_cursor : Z
}.

Definition cursor (ch : Channel) (g : Cursors) : Z :=
  match ch with
  | Coarse => coarse_cursor g
  | Fine => fine_cursor g
  end.

(** Modelled from the spec: step ReserveGlobalOffset.  The kernel body that
    performs the reservation is not among the sources; the spec gives it as
    one atomic fetch-and-add per channel, by one elected thread of the
    block, of the tile's total onto the channel's global output cursor.
    The fetch-and-add returns the old cursor and advances it by [count]. *)
Definition atomicAdd (ch : Channel) (count : Z) (g : Cursors) : Z * Cursors :=
  match ch with
  | Coarse => (coarse_cursor g,
               {| coarse_cursor := coarse_cursor g + count;
                  fine_cursor := fine_cursor g |})
  | Fine => (fine_cursor g,
             {| coarse_cursor := coarse_cursor g;
                fine_cursor := fine_cursor g + count |})
  end.

(** One atomic step of some block: which tile, which channel, how many. *)
Record Request : Type := {
  req_tile : nat;
  req_channel : Channel;
  req_count : Z
}.

(** What the block gets back: the range [[base, base + count)]. *)
Record Range : Type := {
  tile : nat;
  channel : Channel;
  base : Z;
  count : Z
}.

(** Modelled from the spec: one reservation of the absent kernel body,
    the fetch-and-add together with the range the block learns from it. *)
Definition ReserveGlobalOffset (r : Request) (g : Cursors) : Range * Cursors :=
  let (old, g') := atomicAdd (req_channel r) (req_count r) g in
  ({| tile := req_tile r; channel := req_channel r;
      base := old; count := req_count r |}, g').

(** Modelled from the spec: the blocks of a launch run in any order; an
    interleaving is the order in which their atomic steps reach the
    cursors. *)
Fixpoint run (g : Cursors) (schedule : list Request) : list Range * Cursors :=
  match schedule with
  | [] => ([], g)
  | r :: rest =>
      let (out, g') := ReserveGlobalOffset r g in
      let (outs, g'') := run g' rest in
      (out :: outs, g'')
  end.

(** A tile with its two channel totals, and the two atomic steps its block
    performs. *)
Record Tile : Type := {
  tile_id : nat;
  coarse_total : Z;
  fine_total : Z
}.

Definition requests_of (t : Tile) : list Request :=
  [ {| req_tile := tile_id t; req_channel := Coarse; req_count := coarse_total t |};
    {| req_tile := tile_id t; req_channel := Fine; req_count := fine_total t |} ].

Definition nonneg_request (q : Request) : Prop := 0 <= req_count q.

(** The request a range answers. *)
Definition served (r : Range) : Request :=
  {| req_tile := tile r; req_channel := channel r; req_count := count r |}.

Definition covers (r : Range) (x : Z) : Prop := base r <= x < base r + count r.

Definition disjoint (a b : Range) : Prop :=
  base a + count a <= base b \/ base b + count b <= base a.

End Reservation.

(* ================================================================== *)
(** ** Work distribution *)
(* ================================================================== *)

Module WorkDistribution.

(** Modelled from the spec: the [WorkRange] of the data model,
    [{offset, length, guarded_offset, guarded_length}], one block's slice of
    the input (its declaration is in the absent
    [cta_work_distribution.cuh]).  The downsweep kernel reads
    [work_limits.offset] and [work_limits.guarded_offset]. *)
Record WorkRange : Type := {
  offset : Z;
  length : Z;
  guarded_offset : Z;
  guarded_length : Z
}.

(** Modelled from the spec: the state of [util::CtaWorkDistribution], also
    declared in the absent header: the input size, the granularity, the
    number of units, the units every block gets, the surplus units and the
    grid size. *)
Record CtaWorkDistribution : Type := {
  num_elements : Z;
  schedule_granularity : Z;
  total_grains : Z;
  grains_per_cta : Z;
  extra_grains : Z;
  grid_size : Z
}.

(** Modelled from the spec: the constructor of [util::CtaWorkDistribution]
    (the header [cta_work_distribution.cuh] is not among the sources).
    The input is cut into [granularity]-sized units, the last one possibly
    partial; every block gets the same number of units, and the surplus
    units, fewer than [grid_size], are kept aside. *)
Definition init (total_elements granularity grid : Z) : CtaWorkDistribution :=
  let grains := (total_elements + granularity - 1) / granularity in
  {| num_elements := total_elements;
     schedule_granularity := granularity;
     total_grains := grains;
     grains_per_cta := grains / grid;
     extra_grains := grains - (grains / grid) * grid;
     grid_size := grid |}.

(** Modelled from the spec: the units assigned to block [b] by the absent
    [GetCtaWorkLimits]; the surplus units go, one each, to the
    lowest-indexed blocks. *)
Definition grains_of (w : CtaWorkDistribution) (b : Z) : Z :=
  grains_per_cta w + (if b <? extra_grains w then 1 else 0).

(** Modelled from the spec: the index of the first unit of block [b] in
    the absent [GetCtaWorkLimits]; the blocks take their units in block
    order. *)
Definition first_grain (w : CtaWorkDistribution) (b : Z) : Z :=
  b * grains_per_cta w + Z.min b (extra_grains w).

(** Modelled from the spec: [GetCtaWorkLimits] of the absent
    [util::CtaWorkDistribution], called by the downsweep kernel with its
    block index.  The block's units are consecutive; its range is clipped
    to the input, and the block that holds the tail (the last unit, which
    may be partial) is marked by a non-empty guarded portion covering that
    unit. *)
Definition GetCtaWorkLimits (w : CtaWorkDistribution) (blockIdx : Z) : WorkRange :=
  let g := schedule_granularity w in
  let first := first_grain w blockIdx in
  let start := Z.min (num_elements w) (first * g) in
  let out_of_bounds :=
    Z.min (num_elements w) ((first + grains_of w blockIdx) * g) in
  let holds_tail :=
    (start <? num_elements w) && (out_of_bounds =? num_elements w) in
  let guarded :=
    if holds_tail then num_elements w - (total_grains w - 1) * g else 0 in
  {| offset := start;
     length := out_of_bounds - start;
     guarded_offset := out_of_bounds - guarded;
     guarded_length := guarded |}.

(** Modelled from the spec: [Plan(total_elements, grid_size, granularity)],
    the ranges of all blocks of the grid in block order. *)
Definition Plan (total_elements grid granularity : Z) : list WorkRange :=
  map (fun b => GetCtaWorkLimits (init total_elements granularity grid)
                                 (Z.of_nat b))
      (seq 0 (Z.to_nat grid)).




End WorkDistribution.

(* ================================================================== *)
(** ** Tuned memcopy enactor (memcopy_api_enactor_tuned.cuh) *)
(* ================================================================== *)

Module Memcopy.
Import ConstExpr.

Inductive TunedGranularityEnum : Type :=
  | SMALL_PROBLEM
  | LARGE_PROBLEM.

(** What the enactor reads from a tuning preset
    [large_problem_tuning::TunedConfig<CUDA_ARCH>] or
    [small_problem_tuning::TunedConfig<CUDA_ARCH>]: the element type [T]
    (through its size, at least one byte), [LOG_THREADS] and
    [CTA_OCCUPANCY]. *)
Record TunedConfig : Type := {
  sizeof_T : positive;
  LOG_THREADS : Z;
  CTA_OCCUPANCY : Z
}.

(** [TunedGranularity<GRANULARITY_ENUM, CUDA_ARCH>] *)
Record TunedGranularity : Type := {
  Base : TunedConfig;
  GRANULARITY_ENUM : TunedGranularityEnum;
  THREADS : option Z;
  OCCUPANCY : Z
}.

(** [Storage] and [Detail<GRANULARITY_ENUM>]; device pointers are
    addresses. *)
Record Storage : Type := {
  d_dest : Z;
  d_src : Z;
  num_bytes : Z
}.

Record Detail : Type := {
  detail_enum : TunedGranularityEnum;
  max_grid_size : Z
}.

(** The call [BaseEnactorType::Enact<MemcopyConfig>(d_dest, d_src,
    num_elements, extra_bytes, max_grid_size)] that the enactor ends in;
    the base enactor is not among the sources. *)
Record BaseEnact : Type := {
  config : TunedGranularity;
  base_d_dest : Z;
  base_d_src : Z;
  num_elements : Z;
  extra_bytes : Z;
  base_max_grid_size : Z
}.

Section Enactor.
(** The two presets for the target architecture, defined in the absent
    [memcopy_granularity_tuned_large.cuh] and
    [memcopy_granularity_tuned_small.cuh]. *)
Variable large_problem_tuning : TunedConfig.
Variable small_problem_tuning : TunedConfig.

Definition tuned_granularity (e : TunedGranularityEnum) : TunedGranularity :=
  match e with
  | LARGE_PROBLEM =>
      {| Base := large_problem_tuning;
         GRANULARITY_ENUM := LARGE_PROBLEM;
         THREADS := shl 1 (LOG_THREADS large_problem_tuning);
         OCCUPANCY := CTA_OCCUPANCY large_problem_tuning |}
  | SMALL_PROBLEM =>
      {| Base := small_problem_tuning;
         GRANULARITY_ENUM := SMALL_PROBLEM;
         THREADS := shl 1 (LOG_THREADS small_problem_tuning);
         OCCUPANCY := CTA_OCCUPANCY small_problem_tuning |}
  end.

(** [Enact<CUDA_ARCH>(storage, detail)]: the dispatch call-back.
    [num_bytes] is a [size_t]; [num_elements] and [extra_bytes] are
    [int]s. *)
Definition Enact_arch (storage : Storage) (detail : Detail) : BaseEnact :=
  let MemcopyConfig := tuned_granularity (detail_enum detail) in
  let sizeof_T := Z.pos (sizeof_T (Base MemcopyConfig)) in
  let num_elements := to_int (Z.quot (num_bytes storage) sizeof_T) in
  let extra_bytes :=
    to_int (size_t (num_bytes storage
                    - size_t (size_t num_elements * sizeof_T))) in
  {| config := MemcopyConfig;
     base_d_dest := d_dest storage;
     base_d_src := d_src storage;
     num_elements := num_elements;
     extra_bytes := extra_bytes;
     base_max_grid_size := max_grid_size detail |}.

(** [Enact<GRANULARITY_ENUM>(d_dest, d_src, num_bytes, max_grid_size)];
    [BaseArchType::Enact] calls back into [Enact<CUDA_ARCH>] with the
    architecture of the device. *)
Definition Enact_tuned (e : TunedGranularityEnum)
  (d_dest d_src num_bytes max_grid_size : Z) : BaseEnact :=
  let detail := {| detail_enum := e; max_grid_size := max_grid_size |} in
  let storage :=
    {| d_dest := d_dest; d_src := d_src; num_bytes := num_bytes |} in
  Enact_arch storage detail.

(** [Enact(d_dest, d_src, num_bytes, max_grid_size)]: the hybrid approach. *)
Definition Enact (d_dest d_src num_bytes max_grid_size : Z) : BaseEnact :=
  if num_bytes >? 1024 * 2252
  then Enact_tuned LARGE_PROBLEM d_dest d_src num_bytes max_grid_size
  else Enact_tuned SMALL_PROBLEM d_dest d_src num_bytes max_grid_size.

End Enactor.

(** A [size_t] argument. *)
Definition is_size_t (n : Z) : Prop := 0 <= n < 2 ^ 64.

End Memcopy.

(* ================================================================== *)
(** ** Downsweep scan kernel: the entry point (part_000) *)
(* ================================================================== *)

Module Downsweep.
Import ConstExpr.

(** The part of [Cta::SmemStorage] that the entry point writes: the work
    limits of the block and the two texture offsets derived from them. *)
Record SmemStorage : Type := {
  work_limits : WorkDistribution.WorkRange;
  tex_offset : Z;
  tex_offset_limit : Z
}.

(** What thread [threadIdx.x] does to the shared storage before the
    barrier.  Thread 0 stores the block's work limits and divides their
    [offset] and [guarded_offset] by [Cta::ELEMENTS_PER_TEX]; every other
    thread leaves the storage alone.  [GetCtaWorkLimits] and the [Cta]
    class are not among the sources: the limits the call produces and the
    constant [ELEMENTS_PER_TEX] enter as arguments.  The division truncates
    and has no value for a zero divisor. *)
Definition Kernel_work_limits
  (ELEMENTS_PER_TEX : Z) (limits : WorkDistribution.WorkRange)
  (threadIdx_x : Z) (smem_storage : SmemStorage) : option SmemStorage :=
  if threadIdx_x =? 0
  then
    offset <- div (WorkDistribution.offset limits) ELEMENTS_PER_TEX ;;
    limit <- div (WorkDistribution.guarded_offset limits) ELEMENTS_PER_TEX ;;
    Some {| work_limits := limits;
            tex_offset := offset;
            tex_offset_limit := limit |}
  else Some smem_storage.

End Downsweep.

(* ================================================================== *)
(** ** Sample parameterizations *)
(* ================================================================== *)

Module Samples.
Import KernelConfig.

(** A Fermi-class device and a 256-thread configuration, used to exercise
    the statements of the next part. *)
Definition sm20 : CudaArch :=
  {| B40C_LOG_WARP_THREADS := 5; B40C_WARP_THREADS := 32;
     B40C_SM_CTAS := 8; B40C_SM_THREADS := 1536;
     B40C_SMEM_BYTES := 49152 |}.

Definition bfs_problem : ProblemType :=
  {| sizeof_VertexId := 4; sizeof_SizeT := 4; MARK_PARENTS := true |}.

Definition tuned256 : Tunables :=
  {| _MAX_CTA_OCCUPANCY := 8; _LOG_THREADS := 8; _LOG_LOAD_VEC_SIZE := 0;
     _LOG_LOADS_PER_TILE := 1; _LOG_RAKING_THREADS := 5;
     _WORK_STEALING := false; _LOG_SCHEDULE_GRANULARITY := 9 |}.

(** The same tunables with sixteen threads, half a warp. *)
Definition tuned16 : Tunables :=
  {| _MAX_CTA_OCCUPANCY := 8; _LOG_THREADS := 4; _LOG_LOAD_VEC_SIZE := 0;
     _LOG_LOADS_PER_TILE := 1; _LOG_RAKING_THREADS := 5;
     _WORK_STEALING := false; _LOG_SCHEDULE_GRANULARITY := 9 |}.

(** The 256-thread tunables with a schedule granularity of [2^31]
    elements. *)
Definition tuned256_granularity31 : Tunables :=
  {| _MAX_CTA_OCCUPANCY := 8; _LOG_THREADS := 8; _LOG_LOAD_VEC_SIZE := 0;
     _LOG_LOADS_PER_TILE := 1; _LOG_RAKING_THREADS := 5;
     _WORK_STEALING := false; _LOG_SCHEDULE_GRANULARITY := 31 |}.

(** 1024 threads, 1024-wide vectors and 2048 loads per tile: a tile of
    [2^31] elements. *)
Definition tuned_tile31 : Tunables :=
  {| _MAX_CTA_OCCUPANCY := 1; _LOG_THREADS := 10; _LOG_LOAD_VEC_SIZE := 10;
     _LOG_LOADS_PER_TILE := 11; _LOG_RAKING_THREADS := 5;
     _WORK_STEALING := false; _LOG_SCHEDULE_GRANULARITY := 9 |}.

(** Two tiles and one interleaving of their four atomic steps. *)
Definition tile_a : Reservation.Tile :=
  {| Reservation.tile_id := 0%nat;
     Reservation.coarse_total := 3; Reservation.fine_total := 10 |}.

Definition tile_b : Reservation.Tile :=
  {| Reservation.tile_id := 1%nat;
     Reservation.coarse_total := 5; Reservation.fine_total := 0 |}.

Definition interleaved : list Reservation.Request :=
  match Reservation.requests_of tile_a, Reservation.requests_of tile_b with
  | [a_coarse; a_fine], [b_coarse; b_fine] =>
      [b_coarse; a_coarse; a_fine; b_fine]
  | _, _ => []
  end.

(** An input of nine elements, cut into units of four, for two blocks. *)
Definition plan_9_2_4 : list WorkDistribution.WorkRange :=
  WorkDistribution.Plan 9 2 4.

(** Memcopy presets: 128 and 512 threads copying 4-byte words. *)
Definition small_preset : Memcopy.TunedConfig :=
  {| Memcopy.sizeof_T := 4; Memcopy.LOG_THREADS := 7;
     Memcopy.CTA_OCCUPANCY := 8 |}.

Definition large_preset : Memcopy.TunedConfig :=
  {| Memcopy.sizeof_T := 4; Memcopy.LOG_THREADS := 9;
     Memcopy.CTA_OCCUPANCY := 3 |}.

End Samples.

(* ================================================================== *)
(** * Properties *)
(* ================================================================== *)

(** ** Constant expressions *)

Section ConstExprFacts.
Import ConstExpr.

Lemma to_int_small (z : Z) : - 2 ^ 31 <= z < 2 ^ 31 -> to_int z = z.
Proof.
  intros H. unfold to_int.
  rewrite Z.mod_small; [ring|].
  change (2 ^ 32) with (2 ^ 31 + 2 ^ 31). lia.
Qed.

Lemma shl_1_Some (k v : Z) :
  shl 1 k = Some v <->
  (0 <= k < 31 /\ v = 2 ^ k) \/ (k = 31 /\ v = - 2 ^ 31).
Proof.
  unfold shl. rewrite Z.mul_1_l.
  change (0 <=? 1) with true. cbn [andb].
  destruct (Z.leb_spec 0 k) as [Hk|Hk]; cbn [andb].
  2:{ split; [discriminate | lia]. }
  destruct (Z.ltb_spec k 32) as [Hk'|Hk']; cbn [andb].
  2:{ split; [discriminate | lia]. }
  assert (Hp : 2 ^ k <= 2 ^ 31) by (apply Z.pow_le_mono_r; lia).
  assert (H3132 : 2 ^ 31 < 2 ^ 32) by reflexivity.
  destruct (Z.ltb_spec (2 ^ k) (2 ^ 32)) as [_|Hge]; [|lia].
  rewrite Z.shiftl_1_l.
  destruct (Z.eq_dec k 31) as [->|Hne].
  - change (to_int (2 ^ 31)) with (- 2 ^ 31). split.
    + intros [= <-]. right. auto.
    + intros [[H _]|[_ ->]]; [lia | reflexivity].
  - assert (Hp' : 2 ^ k <= 2 ^ 30) by (apply Z.pow_le_mono_r; lia).
    assert (H0 : 0 < 2 ^ k) by (apply Z.pow_pos_nonneg; lia).
    assert (H3031 : 2 ^ 30 < 2 ^ 31) by reflexivity.
    rewrite to_int_small by lia. split.
    + intros [= <-]. left. split; [lia | reflexivity].
    + intros [[_ ->]|[H _]]; [reflexivity | lia].
Qed.

Lemma shl_1_below_31 (k : Z) : 0 <= k < 31 -> shl 1 k = Some (2 ^ k).
Proof. intros H. apply shl_1_Some. left. auto. Qed.

(** A positive value of [1 << k] is the power of two. *)
Lemma shl_1_pos (k v : Z) :
  shl 1 k = Some v -> (0 < v \/ k < 31) -> 0 <= k < 31 /\ v = 2 ^ k.
Proof.
  intros H Hv. apply shl_1_Some in H.
  destruct H as [H|[-> ->]]; [exact H|].
  exfalso. assert (0 < 2 ^ 31) by reflexivity. lia.
Qed.


Lemma shr_Some (a k v : Z) :
  shr a k = Some v <-> (0 <= k < 32 /\ v = a / 2 ^ k).
Proof.
  unfold shr.
  destruct (Z.leb_spec 0 k); cbn [andb]; [|split; [discriminate|lia]].
  destruct (Z.ltb_spec k 32); cbn [andb]; [|split; [discriminate|lia]].
  rewrite Z.shiftr_div_pow2 by lia.
  split; [intros [= <-]; auto | intros [_ ->]; reflexivity].
Qed.

Lemma div_Some (a b v : Z) :
  div a b = Some v <-> (b <> 0 /\ v = Z.quot a b).
Proof.
  unfold div. destruct (Z.eqb_spec b 0).
  - split; [discriminate | lia].
  - split; [intros [= <-]; auto | intros [_ ->]; reflexivity].
Qed.

Lemma bind_Some {A B : Type} (m : option A) (f : A -> option B) (b : B) :
  bind m f = Some b <-> exists a, m = Some a /\ f a = Some b.
Proof.
  destruct m as [a|]; simpl.
  - split; [eauto | intros (a' & [= ->] & H); exact H].
  - split; [discriminate | intros (a' & H & _); discriminate].
Qed.

End ConstExprFacts.

(** ** KernelConfig *)

Section KernelConfigFacts.
Import ConstExpr KernelConfig Samples.

Lemma B40C_MIN_min (a b : Z) : B40C_MIN a b = Z.min a b.
Proof. unfold B40C_MIN. destruct (Z.ltb_spec a b); lia. Qed.

Lemma B40C_QUADS_covers (bytes : Z) :
  0 <= bytes ->
  0 <= B40C_QUADS bytes /\ bytes <= B40C_QUADS bytes * sizeof_uint4.
Proof.
  intros Hb. unfold B40C_QUADS, sizeof_uint4.
  rewrite Z.quot_div_nonneg by lia.
  pose proof (Z.mul_succ_div_gt (bytes + 16 - 1) 16 ltac:(lia)).
  pose proof (Z.div_pos (bytes + 16 - 1) 16 ltac:(lia) ltac:(lia)).
  lia.
Qed.

Lemma quot_pos_num (a d : Z) : 0 < d -> 0 < Z.quot a d -> 0 <= a.
Proof.
  intros Hd Hq. destruct (Z_lt_le_dec a 0) as [Ha|Ha]; [|exact Ha].
  exfalso.
  pose proof (Z.quot_opp_l a d ltac:(lia)) as Ho.
  pose proof (Z.quot_pos (- a) d ltac:(lia) Hd).
  lia.
Qed.

Lemma CTA_OCCUPANCY_Some (a : CudaArch) (T : Tunables) (sz : N) (occ : Z) :
  CTA_OCCUPANCY a T sz = Some occ <->
  exists thr sm,
    THREAD_OCCUPANCY a T = Some thr /\
    SMEM_OCCUPANCY a sz = Some sm /\
    occ = Z.min (_MAX_CTA_OCCUPANCY T)
            (Z.min (B40C_SM_CTAS a) (Z.min thr sm)).
Proof.
  unfold CTA_OCCUPANCY. rewrite bind_Some. split.
  - intros (thr & Hthr & H). apply bind_Some in H.
    destruct H as (sm & Hsm & [= <-]).
    exists thr, sm. rewrite !B40C_MIN_min. auto.
  - intros (thr & sm & Hthr & Hsm & ->).
    exists thr. split; [exact Hthr|]. apply bind_Some.
    exists sm. rewrite !B40C_MIN_min. auto.
Qed.

Lemma VALID_true (a : CudaArch) (T : Tunables) (sz : N) :
  VALID a T sz = Some true <->
  exists occ, CTA_OCCUPANCY a T sz = Some occ /\ 0 < occ.
Proof.
  unfold VALID. rewrite bind_Some. split.
  - intros (occ & Hocc & [= H]). exists occ. split; [exact Hocc|].
    apply Z.ltb_lt. exact H.
  - intros (occ & Hocc & Hpos). exists occ. split; [exact Hocc|].
    f_equal. apply Z.ltb_lt. exact Hpos.
Qed.

Lemma VALID_false (a : CudaArch) (T : Tunables) (sz : N) :
  VALID a T sz = Some false <->
  exists occ, CTA_OCCUPANCY a T sz = Some occ /\ occ <= 0.
Proof.
  unfold VALID. rewrite bind_Some. split.
  - intros (occ & Hocc & [= H]). exists occ. split; [exact Hocc|].
    apply Z.ltb_ge. exact H.
  - intros (occ & Hocc & Hpos). exists occ. split; [exact Hocc|].
    f_equal. apply Z.ltb_ge. exact Hpos.
Qed.

Example tuned256_THREADS : THREADS tuned256 = Some 256.
Proof. reflexivity. Qed.

Example tuned256_TILE_ELEMENTS : TILE_ELEMENTS tuned256 = Some 512.
Proof. reflexivity. Qed.

Example tuned256_occupancy : CTA_OCCUPANCY sm20 tuned256 6016 = Some 6.
Proof. reflexivity. Qed.

Example tuned256_smem_occupancy : SMEM_OCCUPANCY sm20 6016 = Some 8.
Proof. reflexivity. Qed.

Example tuned256_FULL_OCCUPANCY_BYTES :
  FULL_OCCUPANCY_BYTES sm20 bfs_problem tuned256 48 = Some 5320.
Proof. reflexivity. Qed.

Example tuned16_WARPS : WARPS sm20 tuned16 = None.
Proof. reflexivity. Qed.

Example tuned256_KernelConfig_VALID :
  KernelConfig_VALID sm20 bfs_problem tuned256 48 (Some 6016%N) = Some true.
Proof. reflexivity. Qed.

End KernelConfigFacts.

Section KernelConfigClaims.
Import ConstExpr KernelConfig Samples.

(** C7, as the claim states it, fails at the top of the range.  With
    [_LOG_SCHEDULE_GRANULARITY = 31] the shift [1 << 31] is [INT_MIN], so
    [SCHEDULE_GRANULARITY] is [-2^31], which is no power of two; and with
    1024 threads, 1024-wide vectors and 2048 loads per tile
    [TILE_ELEMENTS] is [-2^31] while
    [THREADS * LOAD_VEC_SIZE * LOADS_PER_TILE] is [2^31]. *)
Lemma derived_size_at_log_31_is_INT_MIN :
  SCHEDULE_GRANULARITY tuned256_granularity31 = Some (- 2 ^ 31) /\
  (forall k, - 2 ^ 31 <> 2 ^ k) /\
  THREADS tuned_tile31 = Some (2 ^ 10) /\
  LOAD_VEC_SIZE tuned_tile31 = Some (2 ^ 10) /\
  LOADS_PER_TILE tuned_tile31 = Some (2 ^ 11) /\
  TILE_ELEMENTS tuned_tile31 = Some (- 2 ^ 31) /\
  - 2 ^ 31 <> 2 ^ 10 * 2 ^ 10 * 2 ^ 11.
Proof.
  split; [reflexivity|]. split.
  { intros k H. pose proof (Z.pow_nonneg 2 k ltac:(lia)) as Hk.
    assert (0 < 2 ^ 31) by reflexivity. lia. }
  repeat split; try reflexivity. cbv. congruence.
Qed.

(** C7, amended.  Every derived size of [KernelConfig] is [1 << LOG] of
    its log2 constant: it has a value exactly when [0 <= LOG <= 31]; for
    [LOG <= 30] the value is the power of two [2^LOG], and for [LOG = 31]
    it is [INT_MIN = -2^31].  This holds of [THREADS], [LOAD_VEC_SIZE],
    [LOADS_PER_TILE], [RAKING_THREADS], [SCHEDULE_GRANULARITY],
    [LOAD_STRIDE], [TILE_ELEMENTS_PER_THREAD], [TILE_ELEMENTS] and [WARPS].
    Whenever [LOG_TILE_ELEMENTS < 31],
    [TILE_ELEMENTS = THREADS * LOAD_VEC_SIZE * LOADS_PER_TILE]; and when
    the three factors are positive and their product is an [int],
    [TILE_ELEMENTS] is that product. *)
Theorem derived_sizes_are_powers_of_two_below_31
  (a : CudaArch) (T : Tunables) :
  let shifted (size : option Z) (log : Z) :=
    forall v, size = Some v <->
              (0 <= log < 31 /\ v = 2 ^ log) \/ (log = 31 /\ v = - 2 ^ 31) in
  shifted (THREADS T) (LOG_THREADS T) /\
  shifted (LOAD_VEC_SIZE T) (LOG_LOAD_VEC_SIZE T) /\
  shifted (LOADS_PER_TILE T) (LOG_LOADS_PER_TILE T) /\
  shifted (RAKING_THREADS T) (LOG_RAKING_THREADS T) /\
  shifted (SCHEDULE_GRANULARITY T) (LOG_SCHEDULE_GRANULARITY T) /\
  shifted (LOAD_STRIDE T) (LOG_LOAD_STRIDE T) /\
  shifted (TILE_ELEMENTS_PER_THREAD T) (LOG_TILE_ELEMENTS_PER_THREAD T) /\
  shifted (TILE_ELEMENTS T) (LOG_TILE_ELEMENTS T) /\
  shifted (WARPS a T) (LOG_WARPS a T) /\
  (forall threads vec loads tile,
      THREADS T = Some threads ->
      LOAD_VEC_SIZE T = Some vec ->
      LOADS_PER_TILE T = Some loads ->
      TILE_ELEMENTS T = Some tile ->
      LOG_TILE_ELEMENTS T < 31 ->
      tile = threads * vec * loads) /\
  (forall threads vec loads,
      THREADS T = Some threads ->
      LOAD_VEC_SIZE T = Some vec ->
      LOADS_PER_TILE T = Some loads ->
      0 < threads -> 0 < vec -> 0 < loads ->
      threads * vec * loads <= INT_MAX ->
      TILE_ELEMENTS T = Some (threads * vec * loads)).
Proof.
  cbv zeta.
  repeat match goal with |- _ /\ _ => split end;
    try (intros v; apply shl_1_Some).
  - intros threads vec loads tile Ht Hv Hl Hte Hlt.
    apply shl_1_Some in Ht, Hv, Hl.
    apply shl_1_pos in Hte; [|right; exact Hlt].
    destruct Hte as [Hr ->].
    unfold LOG_TILE_ELEMENTS, LOG_TILE_ELEMENTS_PER_THREAD in *.
    destruct Ht as [[Ht ->]|[Ht _]], Hv as [[Hv ->]|[Hv _]],
      Hl as [[Hl ->]|[Hl _]]; try lia.
    rewrite !Z.pow_add_r by lia. ring.
  - intros threads vec loads Ht Hv Hl Ht0 Hv0 Hl0 Hmax.
    apply shl_1_pos in Ht; [|left; exact Ht0].
    apply shl_1_pos in Hv; [|left; exact Hv0].
    apply shl_1_pos in Hl; [|left; exact Hl0].
    destruct Ht as [Ht ->], Hv as [Hv ->], Hl as [Hl ->].
    unfold LOG_TILE_ELEMENTS, LOG_TILE_ELEMENTS_PER_THREAD.
    rewrite <- !Z.pow_add_r in Hmax by lia.
    replace (2 ^ LOG_THREADS T * 2 ^ LOG_LOAD_VEC_SIZE T
             * 2 ^ LOG_LOADS_PER_TILE T)
      with (2 ^ (LOG_LOAD_VEC_SIZE T + LOG_LOADS_PER_TILE T + LOG_THREADS T))
      by (rewrite !Z.pow_add_r by lia; ring).
    apply shl_1_below_31. split; [lia|].
    destruct (Z_lt_le_dec (LOG_THREADS T + LOG_LOAD_VEC_SIZE T
                           + LOG_LOADS_PER_TILE T) 31) as [Hlt|Hge]; [lia|].
    exfalso.
    assert (Hp : 2 ^ 31 <= 2 ^ (LOG_THREADS T + LOG_LOAD_VEC_SIZE T
                                + LOG_LOADS_PER_TILE T))
      by (apply Z.pow_le_mono_r; lia).
    unfold INT_MAX in Hmax. lia.
Qed.

Lemma derived_sizes_are_powers_of_two_below_31_witness :
  THREADS tuned256 = Some (2 ^ 8) /\
  TILE_ELEMENTS tuned256 = Some (256 * 1 * 2).
Proof.
  pose proof (derived_sizes_are_powers_of_two_below_31 sm20 tuned256) as H.
  cbv zeta in H.
  destruct H as (Hthreads & _ & _ & _ & _ & _ & _ & _ & _ & _ & Htile).
  split.
  - apply Hthreads. left. cbv. intuition congruence.
  - apply Htile; try reflexivity. cbv. congruence.
Defined.

(** C2. [CTA_OCCUPANCY] is the minimum of [_MAX_CTA_OCCUPANCY],
    [B40C_SM_CTAS], [THREAD_OCCUPANCY] (the SM's thread capacity divided by
    the threads of a block) and [SMEM_OCCUPANCY] (the SM's shared memory
    divided by the block's footprint [SMEM_QUADS * sizeof(uint4)]), and
    [VALID] holds exactly when that occupancy is greater than 0. *)
Theorem CTA_OCCUPANCY_is_min_and_VALID_iff_positive
  (a : CudaArch) (T : Tunables) (sz : N) :
  (forall occ,
      CTA_OCCUPANCY a T sz = Some occ <->
      exists thr sm,
        THREAD_OCCUPANCY a T = Some thr /\
        SMEM_OCCUPANCY a sz = Some sm /\
        occ = Z.min (_MAX_CTA_OCCUPANCY T)
                (Z.min (B40C_SM_CTAS a) (Z.min thr sm))) /\
  (forall thr,
      THREAD_OCCUPANCY a T = Some thr <->
      0 <= LOG_THREADS T < 32 /\
      thr = B40C_SM_THREADS a / 2 ^ LOG_THREADS T) /\
  (forall thr threads,
      THREAD_OCCUPANCY a T = Some thr ->
      THREADS T = Some threads ->
      0 < threads ->
      thr = B40C_SM_THREADS a / threads) /\
  (forall sm,
      SMEM_OCCUPANCY a sz = Some sm <->
      SMEM_QUADS sz <> 0 /\
      sm = Z.quot (B40C_SMEM_BYTES a) (SMEM_QUADS sz * sizeof_uint4)) /\
  (VALID a T sz = Some true <->
   exists occ, CTA_OCCUPANCY a T sz = Some occ /\ 0 < occ) /\
  (VALID a T sz = Some false <->
   exists occ, CTA_OCCUPANCY a T sz = Some occ /\ occ <= 0).
Proof.
  split; [intros occ; apply CTA_OCCUPANCY_Some|].
  split; [intros thr; apply shr_Some|].
  split.
  { intros thr threads Hthr Hthreads Hpos.
    apply shr_Some in Hthr.
    apply shl_1_pos in Hthreads; [|left; exact Hpos].
    destruct Hthr as [_ ->], Hthreads as [_ ->]. reflexivity. }
  split.
  { intros sm. unfold SMEM_OCCUPANCY. rewrite div_Some.
    unfold sizeof_uint4. split; intros [H ->]; split; auto; lia. }
  split; [apply VALID_true | apply VALID_false].
Qed.

Lemma CTA_OCCUPANCY_is_min_witness :
  CTA_OCCUPANCY sm20 tuned256 6016 = Some (Z.min 8 (Z.min 8 (Z.min 6 8))) /\
  VALID sm20 tuned256 6016 = Some true.
Proof.
  pose proof (CTA_OCCUPANCY_is_min_and_VALID_iff_positive sm20 tuned256 6016)
    as (Hocc & _ & _ & _ & Hvalid & _).
  assert (Ho : CTA_OCCUPANCY sm20 tuned256 6016
               = Some (Z.min 8 (Z.min 8 (Z.min 6 8)))).
  { apply Hocc. exists 6, 8. repeat split; reflexivity. }
  split; [exact Ho|].
  apply Hvalid. eexists. split; [exact Ho|]. reflexivity.
Defined.




Lemma KernelConfig_VALID_Some
  (a : CudaArch) (P : ProblemType) (T : Tunables) (szWD : Z)
  (compiler_sizeof : option N) (b : bool) :
  KernelConfig_VALID a P T szWD compiler_sizeof = Some b ->
  (exists warps, WARPS a T = Some warps /\ 0 < warps) /\
  (exists sz, compiler_sizeof = Some sz /\ VALID a T sz = Some b).
Proof.
  unfold KernelConfig_VALID. intros H.
  destruct (THREADS T); [|discriminate].
  destruct (LOAD_VEC_SIZE T); [|discriminate].
  destruct (LOADS_PER_TILE T); [|discriminate].
  destruct (LOAD_STRIDE T); [|discriminate].
  destruct (RAKING_THREADS T); [|discriminate].
  destruct (WARPS a T) as [warps|] eqn:Hw; [|discriminate].
  destruct (TILE_ELEMENTS_PER_THREAD T); [|discriminate].
  destruct (TILE_ELEMENTS T); [|discriminate].
  destruct (SCHEDULE_GRANULARITY T); [|discriminate].
  destruct (sizeof_WarpComm a P T) as [wc|] eqn:Hwc; [|discriminate].
  destruct (SCRATCH_ELEMENTS a P T szWD); [|discriminate].
  destruct (HASH_ELEMENTS a P T szWD); [|discriminate].
  destruct compiler_sizeof as [sz|]; [|discriminate].
  cbn [bind] in H. split; [|eauto].
  exists warps. split; [reflexivity|].
  unfold sizeof_WarpComm in Hwc. rewrite Hw in Hwc. cbn [bind] in Hwc.
  destruct (Z.ltb_spec 0 warps); [assumption | discriminate].
Qed.

(** Blocks at the computed occupancy fit the SM's shared memory. *)
Lemma footprint_fits (a : CudaArch) (T : Tunables) (sz : N) (occ : Z) :
  CTA_OCCUPANCY a T sz = Some occ ->
  0 < occ ->
  occ * (SMEM_QUADS sz * sizeof_uint4) <= B40C_SMEM_BYTES a /\
  Z.of_N sz <= SMEM_QUADS sz * sizeof_uint4.
Proof.
  intros Hocc Hpos.
  pose proof (B40C_QUADS_covers (Z.of_N sz) (N2Z.is_nonneg sz)) as [Hq0 Hcov].
  fold (SMEM_QUADS sz) in Hq0, Hcov.
  apply CTA_OCCUPANCY_Some in Hocc.
  destruct Hocc as (thr & sm & _ & Hsm & Hmin).
  unfold SMEM_OCCUPANCY in Hsm. apply div_Some in Hsm.
  destruct Hsm as [Hd Hsm].
  assert (Hdpos : 0 < SMEM_QUADS sz * sizeof_uint4)
    by (unfold sizeof_uint4 in *; lia).
  assert (Hle : occ <= sm) by lia.
  assert (Hbytes : 0 <= B40C_SMEM_BYTES a)
    by (apply (quot_pos_num _ _ Hdpos); lia).
  pose proof (Z.mul_quot_le (B40C_SMEM_BYTES a) _ Hbytes Hd) as Hmq.
  rewrite <- Hsm in Hmq.
  split; [nia | exact Hcov].
Qed.

(** C5. For every parameterization of [KernelConfig] with [VALID = true],
    with [sizeof(SmemStorage)] as the compiler lays the structure out,
    [CTA_OCCUPANCY] blocks' shared-memory footprints fit the SM together:
    [CTA_OCCUPANCY * (SMEM_QUADS * sizeof(uint4)) <= B40C_SMEM_BYTES].  The
    footprint covers [sizeof(SmemStorage)], so the same holds of every part
    of the structure: [CTA_OCCUPANCY] copies of the pool, and of each of the
    three views laid over it, fit the SM's shared memory. *)
Theorem smem_footprint_fits_at_occupancy
  (a : CudaArch) (P : ProblemType) (T : Tunables) (szWD : Z)
  (compiler_sizeof : option N) :
  KernelConfig_VALID a P T szWD compiler_sizeof = Some true ->
  exists sz occ,
    compiler_sizeof = Some sz /\
    CTA_OCCUPANCY a T sz = Some occ /\
    0 < occ /\
    occ * (SMEM_QUADS sz * sizeof_uint4) <= B40C_SMEM_BYTES a /\
    Z.of_N sz <= SMEM_QUADS sz * sizeof_uint4 /\
    (forall part, part <= Z.of_N sz -> occ * part <= B40C_SMEM_BYTES a).
Proof.
  intros Hvalid.
  destruct (KernelConfig_VALID_Some a P T szWD compiler_sizeof true Hvalid)
    as [_ (sz & Hsz & Hv)].
  apply VALID_true in Hv. destruct Hv as (occ & Hocc & Hpos).
  destruct (footprint_fits a T sz occ Hocc Hpos) as [Hfit Hcov].
  exists sz, occ.
  split; [exact Hsz|]. split; [exact Hocc|]. split; [exact Hpos|].
  split; [exact Hfit|]. split; [exact Hcov|].
  intros part Hpart. nia.
Qed.

Lemma smem_footprint_fits_witness :
  exists occ,
    CTA_OCCUPANCY sm20 tuned256 6016 = Some occ /\
    occ * (SMEM_QUADS 6016 * sizeof_uint4) <= B40C_SMEM_BYTES sm20 /\
    occ * 5320 <= B40C_SMEM_BYTES sm20.
Proof.
  destruct (smem_footprint_fits_at_occupancy
              sm20 bfs_problem tuned256 48 (Some 6016%N) eq_refl)
    as (sz & occ & Hsz & Hocc & _ & Hfit & _ & Hpart).
  injection Hsz as <-.
  exists occ. split; [exact Hocc|]. split; [exact Hfit|].
  apply Hpart. cbv. congruence.
Defined.




Lemma SizeT_add_assoc (P : ProblemType) (a b c : Z) :
  SizeT_add P (SizeT_add P a b) c = SizeT_add P a (SizeT_add P b c).
Proof.
  unfold SizeT_add.
  rewrite Zplus_mod_idemp_l, Zplus_mod_idemp_r. f_equal. ring.
Qed.

Lemma SizeT_add_comm (P : ProblemType) (a b : Z) :
  SizeT_add P a b = SizeT_add P b a.
Proof. unfold SizeT_add. f_equal. ring. Qed.

Lemma SizeT_add_0_l (P : ProblemType) (a : Z) :
  SizeT_value P a -> SizeT_add P 0 a = a.
Proof. unfold SizeT_add, SizeT_value. intros H. apply Z.mod_small. exact H. Qed.

Lemma exclusive_scan_t0 (P : ProblemType) (xs : list SoaTuple) (acc : SoaTuple) :
  map t0 (exclusive_scan (SoaScanOp P) acc xs)
  = exclusive_scan (SizeT_add P) (t0 acc) (map t0 xs).
Proof.
  revert acc. induction xs as [|x xs IH]; intros acc; [reflexivity|].
  cbn [exclusive_scan map]. rewrite IH. reflexivity.
Qed.

Lemma exclusive_scan_t1 (P : ProblemType) (xs : list SoaTuple) (acc : SoaTuple) :
  map t1 (exclusive_scan (SoaScanOp P) acc xs)
  = exclusive_scan (SizeT_add P) (t1 acc) (map t1 xs).
Proof.
  revert acc. induction xs as [|x xs IH]; intros acc; [reflexivity|].
  cbn [exclusive_scan map]. rewrite IH. reflexivity.
Qed.

Lemma SoaTuple_unzip (xs : list SoaTuple) :
  xs = map (fun p => mkSoaTuple (fst p) (snd p))
           (combine (map t0 xs) (map t1 xs)).
Proof.
  induction xs as [|[c f] xs IH]; [reflexivity|].
  cbn [map combine fst snd t0 t1]. rewrite <- IH. reflexivity.
Qed.

(** C8. [SoaScanOp] is componentwise [SizeT] addition on (coarse, fine)
    pairs with identity [SoaTupleIdentity() = (0, 0)]; it is associative
    and commutative; the coarse component of a combination depends on the
    coarse inputs only and the fine component on the fine inputs only; and
    the exclusive prefix scan of the pairs is, channel by channel, the
    exclusive prefix sum of that channel alone. *)
Theorem SoaScanOp_is_two_independent_sums (P : ProblemType) :
  (forall a b,
      SoaScanOp P a b
      = mkSoaTuple (SizeT_add P (t0 a) (t0 b)) (SizeT_add P (t1 a) (t1 b))) /\
  SoaTupleIdentity = mkSoaTuple 0 0 /\
  (forall a b c,
      SoaScanOp P (SoaScanOp P a b) c = SoaScanOp P a (SoaScanOp P b c)) /\
  (forall a b, SoaScanOp P a b = SoaScanOp P b a) /\
  (forall a,
      SizeT_value P (t0 a) -> SizeT_value P (t1 a) ->
      SoaScanOp P SoaTupleIdentity a = a /\
      SoaScanOp P a SoaTupleIdentity = a) /\
  (forall a b a' b',
      t0 a = t0 a' -> t0 b = t0 b' ->
      t0 (SoaScanOp P a b) = t0 (SoaScanOp P a' b')) /\
  (forall a b a' b',
      t1 a = t1 a' -> t1 b = t1 b' ->
      t1 (SoaScanOp P a b) = t1 (SoaScanOp P a' b')) /\
  (forall xs,
      map t0 (exclusive_scan (SoaScanOp P) SoaTupleIdentity xs)
      = exclusive_scan (SizeT_add P) 0 (map t0 xs) /\
      map t1 (exclusive_scan (SoaScanOp P) SoaTupleIdentity xs)
      = exclusive_scan (SizeT_add P) 0 (map t1 xs)) /\
  (forall xs,
      exclusive_scan (SoaScanOp P) SoaTupleIdentity xs
      = map (fun p => mkSoaTuple (fst p) (snd p))
            (combine (exclusive_scan (SizeT_add P) 0 (map t0 xs))
                     (exclusive_scan (SizeT_add P) 0 (map t1 xs)))).
Proof.
  split; [reflexivity|]. split; [reflexivity|].
  split.
  { intros a b c. unfold SoaScanOp. cbn [t0 t1].
    rewrite !SizeT_add_assoc. reflexivity. }
  split.
  { intros a b. unfold SoaScanOp.
    rewrite (SizeT_add_comm P (t0 a)), (SizeT_add_comm P (t1 a)).
    reflexivity. }
  split.
  { intros [c f] Hc Hf. cbn [t0 t1] in Hc, Hf.
    assert (Hl : SoaScanOp P SoaTupleIdentity (mkSoaTuple c f) = mkSoaTuple c f).
    { unfold SoaScanOp, SoaTupleIdentity. cbn [t0 t1].
      rewrite !SizeT_add_0_l by assumption. reflexivity. }
    split; [exact Hl|].
    unfold SoaScanOp in *. cbn [t0 t1] in *.
    rewrite (SizeT_add_comm P c), (SizeT_add_comm P f). exact Hl. }
  split.
  { intros a b a' b' Ha Hb. unfold SoaScanOp. cbn [t0]. congruence. }
  split.
  { intros a b a' b' Ha Hb. unfold SoaScanOp. cbn [t1]. congruence. }
  split.
  { intros xs. split; [apply exclusive_scan_t0 | apply exclusive_scan_t1]. }
  intros xs.
  change 0 with (t0 SoaTupleIdentity) at 1.
  change 0 with (t1 SoaTupleIdentity) at 1.
  rewrite <- (exclusive_scan_t0 P xs SoaTupleIdentity).
  rewrite <- (exclusive_scan_t1 P xs SoaTupleIdentity).
  apply SoaTuple_unzip.
Qed.

Lemma SoaScanOp_is_two_independent_sums_witness :
  SoaScanOp bfs_problem SoaTupleIdentity (mkSoaTuple 3 5) = mkSoaTuple 3 5 /\
  exclusive_scan (SoaScanOp bfs_problem) SoaTupleIdentity
    [mkSoaTuple 3 5; mkSoaTuple 1 0; mkSoaTuple 0 7]
  = [mkSoaTuple 0 0; mkSoaTuple 3 5; mkSoaTuple 4 5].
Proof.
  destruct (SoaScanOp_is_two_independent_sums bfs_problem)
    as (_ & _ & _ & _ & Hid & _ & _ & _ & Hscan).
  split.
  - apply (Hid (mkSoaTuple 3 5)); cbv; intuition congruence.
  - rewrite Hscan. reflexivity.
Defined.

End KernelConfigClaims.

(** ** Tuned memcopy enactor *)

Section MemcopyClaims.
Import ConstExpr Memcopy Samples.

Lemma Enact_unfold (large small : TunedConfig) (d s n g : Z) :
  Enact large small d s n g
  = Enact_tuned large small
      (if n >? 1024 * 2252 then LARGE_PROBLEM else SMALL_PROBLEM) d s n g.
Proof. unfold Enact. destruct (n >? 1024 * 2252); reflexivity. Qed.

Example Enact_at_threshold :
  GRANULARITY_ENUM (config (Enact large_preset small_preset 0 0 2306048 0))
  = SMALL_PROBLEM.
Proof. reflexivity. Qed.

Example Enact_above_threshold :
  GRANULARITY_ENUM (config (Enact large_preset small_preset 0 0 2306049 0))
  = LARGE_PROBLEM.
Proof. reflexivity. Qed.

(** C6. [MemcopyEnactorTuned::Enact] selects between exactly two
    precompiled configurations by one fixed size threshold: it dispatches
    to the [LARGE_PROBLEM] configuration if and only if
    [num_bytes > 1024 * 2252], and to the [SMALL_PROBLEM] configuration
    otherwise, the threshold itself included. *)
Theorem Enact_dispatches_on_size_threshold
  (large small : TunedConfig) (d_dest d_src num_bytes max_grid_size : Z) :
  let call := Enact large small d_dest d_src num_bytes max_grid_size in
  (call = Enact_tuned large small LARGE_PROBLEM
            d_dest d_src num_bytes max_grid_size
   \/ call = Enact_tuned large small SMALL_PROBLEM
            d_dest d_src num_bytes max_grid_size) /\
  (num_bytes > 1024 * 2252 <->
   call = Enact_tuned large small LARGE_PROBLEM
            d_dest d_src num_bytes max_grid_size
   /\ GRANULARITY_ENUM (config call) = LARGE_PROBLEM) /\
  (num_bytes <= 1024 * 2252 <->
   call = Enact_tuned large small SMALL_PROBLEM
            d_dest d_src num_bytes max_grid_size
   /\ GRANULARITY_ENUM (config call) = SMALL_PROBLEM) /\
  1024 * 2252 = 2306048.
Proof.
  cbv zeta. rewrite Enact_unfold.
  destruct (Z.gtb_spec num_bytes (1024 * 2252)) as [Hgt|Hle].
  - split; [left; reflexivity|]. split; [|split; [|reflexivity]].
    + split; [intros _; split; reflexivity | intros _; lia].
    + split; [intros H; lia | intros [_ H]; discriminate H].
  - split; [right; reflexivity|]. split; [|split; [|reflexivity]].
    + split; [intros H; lia | intros [_ H]; discriminate H].
    + split; [intros _; split; reflexivity | intros _; lia].
Qed.

Lemma Enact_dispatches_on_size_threshold_witness :
  GRANULARITY_ENUM (config (Enact large_preset small_preset 0 0 2306048 0))
  = SMALL_PROBLEM.
Proof.
  destruct (Enact_dispatches_on_size_threshold
              large_preset small_preset 0 0 2306048 0)
    as (_ & _ & Hsmall & _).
  apply Hsmall. cbv. congruence.
Defined.

Lemma size_t_small (z : Z) : 0 <= z < 2 ^ 64 -> size_t z = z.
Proof. intros H. unfold size_t. apply Z.mod_small. exact H. Qed.

(** Within the range of [int] the byte accounting of [Enact<CUDA_ARCH>] is
    exact: [num_elements] whole elements and [extra_bytes] trailing bytes
    add up to [num_bytes]. *)
Lemma Enact_arch_accounting_in_int_range
  (large small : TunedConfig) (storage : Storage) (detail : Detail) :
  let call := Enact_arch large small storage detail in
  let size := Z.pos (sizeof_T (Base (config call))) in
  size <= 2 ^ 31 ->
  0 <= num_bytes storage < 2 ^ 31 * size ->
  num_elements call = num_bytes storage / size /\
  extra_bytes call = num_bytes storage mod size /\
  num_elements call * size + extra_bytes call = num_bytes storage /\
  0 <= extra_bytes call < size.
Proof.
  cbv zeta. unfold Enact_arch. cbn [config num_elements extra_bytes].
  set (size := Z.pos (sizeof_T (Base (tuned_granularity large small
                                        (detail_enum detail))))).
  set (n := num_bytes storage).
  intros Hsize Hn.
  assert (Hpos : 0 < size) by (unfold size; lia).
  rewrite Z.quot_div_nonneg by lia.
  assert (Hq : 0 <= n / size < 2 ^ 31).
  { split; [apply Z.div_pos; lia|].
    apply Z.div_lt_upper_bound; lia. }
  rewrite (to_int_small (n / size)) by lia.
  pose proof (Z.div_mod n size ltac:(lia)) as Hdm.
  pose proof (Z.mod_pos_bound n size Hpos) as Hm.
  assert (Hbig : 2 ^ 31 * size <= 2 ^ 31 * 2 ^ 31) by nia.
  change (2 ^ 31 * 2 ^ 31) with (2 ^ 62) in Hbig.
  assert (H62 : 2 ^ 62 < 2 ^ 64) by reflexivity.
  assert (H31 : 0 < 2 ^ 31) by reflexivity.
  rewrite (size_t_small (n / size)) by lia.
  assert (Hprod : 0 <= n / size * size <= n) by nia.
  rewrite (size_t_small (n / size * size)) by lia.
  replace (n - n / size * size) with (n mod size) by lia.
  rewrite (size_t_small (n mod size)) by lia.
  rewrite (to_int_small (n mod size)) by lia.
  repeat split; lia.
Qed.

Lemma Enact_arch_accounting_in_int_range_witness :
  num_elements
    (Enact_arch large_preset small_preset
       {| d_dest := 0; d_src := 0; num_bytes := 4099 |}
       {| detail_enum := SMALL_PROBLEM; max_grid_size := 0 |}) = 1024 /\
  extra_bytes
    (Enact_arch large_preset small_preset
       {| d_dest := 0; d_src := 0; num_bytes := 4099 |}
       {| detail_enum := SMALL_PROBLEM; max_grid_size := 0 |}) = 3.
Proof.
  destruct (Enact_arch_accounting_in_int_range large_preset small_preset
              {| d_dest := 0; d_src := 0; num_bytes := 4099 |}
              {| detail_enum := SMALL_PROBLEM; max_grid_size := 0 |})
    as (Hn & He & _).
  - cbv. congruence.
  - cbv. intuition congruence.
  - split; [exact Hn | exact He].
Defined.

Lemma to_int_range (z : Z) : - 2 ^ 31 <= to_int z < 2 ^ 31.
Proof.
  unfold to_int.
  pose proof (Z.mod_pos_bound (z + 2 ^ 31) (2 ^ 32) ltac:(reflexivity)).
  change (2 ^ 32) with (2 ^ 31 + 2 ^ 31) in *. lia.
Qed.

(** Beyond the range of [int] the accounting cannot be exact, whatever the
    element type: [num_elements] is an [int], so it is not the quotient. *)
Lemma Enact_arch_accounting_fails_beyond_int_range
  (large small : TunedConfig) (storage : Storage) (detail : Detail) :
  let call := Enact_arch large small storage detail in
  let size := Z.pos (sizeof_T (Base (config call))) in
  2 ^ 31 * size <= num_bytes storage ->
  ~ (num_elements call * size + extra_bytes call = num_bytes storage /\
     0 <= extra_bytes call < size).
Proof.
  cbv zeta. unfold Enact_arch. cbn [config num_elements extra_bytes].
  set (size := Z.pos (sizeof_T (Base (tuned_granularity large small
                                        (detail_enum detail))))).
  set (n := num_bytes storage).
  set (extra := to_int (size_t (n - size_t (size_t (to_int (Z.quot n size))
                                            * size)))).
  pose proof (to_int_range (Z.quot n size)) as Hr.
  set (ne := to_int (Z.quot n size)) in *.
  intros Hn [Hsum Hextra].
  assert (Hpos : 0 < size) by (unfold size; lia).
  assert (2 ^ 31 * size <= ne * size + extra) by lia.
  nia.
Qed.

Lemma Enact_arch_accounting_fails_beyond_int_range_witness :
  ~ (num_elements
       (Enact_arch large_preset small_preset
          {| d_dest := 0; d_src := 0; num_bytes := 2 ^ 33 |}
          {| detail_enum := LARGE_PROBLEM; max_grid_size := 0 |}) * 4
     + extra_bytes
         (Enact_arch large_preset small_preset
            {| d_dest := 0; d_src := 0; num_bytes := 2 ^ 33 |}
            {| detail_enum := LARGE_PROBLEM; max_grid_size := 0 |})
     = 2 ^ 33 /\
     0 <= extra_bytes
            (Enact_arch large_preset small_preset
               {| d_dest := 0; d_src := 0; num_bytes := 2 ^ 33 |}
               {| detail_enum := LARGE_PROBLEM; max_grid_size := 0 |}) < 4).
Proof.
  apply (Enact_arch_accounting_fails_beyond_int_range
           large_preset small_preset
           {| d_dest := 0; d_src := 0; num_bytes := 2 ^ 33 |}
           {| detail_enum := LARGE_PROBLEM; max_grid_size := 0 |}).
  cbv. congruence.
Defined.

(** C9 fails on the code for large copies.  [num_bytes] is a [size_t] but
    [num_elements] is an [int]: a copy of [2^33] bytes of 4-byte elements
    has [2^31] elements, which the [int] turns into [-2^31]; [extra_bytes]
    comes out as [0], and the two no longer add up to [num_bytes]. *)
Theorem Enact_byte_accounting_truncates_to_int :
  let call := Enact large_preset small_preset 0 0 (2 ^ 33) 0 in
  is_size_t (2 ^ 33) /\
  Z.pos (sizeof_T (Base (config call))) = 4 /\
  num_elements call = - 2 ^ 31 /\
  extra_bytes call = 0 /\
  num_elements call * 4 + extra_bytes call <> 2 ^ 33.
Proof.
  cbv zeta. split; [cbv; intuition congruence|].
  split; [reflexivity|].
  split; [vm_compute; reflexivity|].
  split; [vm_compute; reflexivity|].
  vm_compute. congruence.
Qed.

End MemcopyClaims.

(** ** Global enqueue-offset reservation *)

Section ReservationClaims.
Import Reservation Samples.

Lemma run_cons (g : Cursors) (q : Request) (rest : list Request) :
  run g (q :: rest)
  = (fst (ReserveGlobalOffset q g)
       :: fst (run (snd (ReserveGlobalOffset q g)) rest),
     snd (run (snd (ReserveGlobalOffset q g)) rest)).
Proof.
  cbn [run]. destruct (ReserveGlobalOffset q g) as [out g1].
  cbn [fst snd]. destruct (run g1 rest) as [outs g2]. reflexivity.
Qed.

Lemma ReserveGlobalOffset_range (q : Request) (g : Cursors) :
  fst (ReserveGlobalOffset q g)
  = {| tile := req_tile q; channel := req_channel q;
       base := cursor (req_channel q) g; count := req_count q |}.
Proof.
  unfold ReserveGlobalOffset, atomicAdd.
  destruct (req_channel q); reflexivity.
Qed.

Lemma ReserveGlobalOffset_cursor (q : Request) (g : Cursors) (ch : Channel) :
  cursor ch (snd (ReserveGlobalOffset q g))
  = if Channel_eqb ch (req_channel q)
    then cursor ch g + req_count q
    else cursor ch g.
Proof.
  unfold ReserveGlobalOffset, atomicAdd.
  destruct (req_channel q), ch; reflexivity.
Qed.

Lemma ReserveGlobalOffset_cursor_mono (q : Request) (g : Cursors) (ch : Channel) :
  nonneg_request q ->
  cursor ch g <= cursor ch (snd (ReserveGlobalOffset q g)).
Proof.
  unfold nonneg_request. intros H. rewrite ReserveGlobalOffset_cursor.
  destruct (Channel_eqb ch (req_channel q)); lia.
Qed.

Lemma run_served (schedule : list Request) (g : Cursors) :
  map served (fst (run g schedule)) = schedule.
Proof.
  revert g. induction schedule as [|q rest IH]; intros g; [reflexivity|].
  rewrite run_cons. cbn [fst map]. rewrite IH.
  rewrite ReserveGlobalOffset_range. destruct q; reflexivity.
Qed.

(** Every range handed out by a run starts at or after the cursor the run
    started from. *)
Lemma run_base_ge (schedule : list Request) (g : Cursors) (r : Range) :
  Forall nonneg_request schedule ->
  In r (fst (run g schedule)) ->
  cursor (channel r) g <= base r.
Proof.
  revert g. induction schedule as [|q rest IH]; intros g Hnn Hin.
  - contradiction.
  - inversion Hnn as [|? ? Hq Hrest]; subst.
    rewrite run_cons in Hin. cbn [fst] in Hin. destruct Hin as [<-|Hin].
    + rewrite ReserveGlobalOffset_range. cbn [channel base]. lia.
    + apply IH in Hin; [|exact Hrest].
      pose proof (ReserveGlobalOffset_cursor_mono q g (channel r) Hq). lia.
Qed.

(** Ranges of one channel are laid out in the order of the steps. *)
Lemma run_ordered (schedule : list Request) (g : Cursors) :
  Forall nonneg_request schedule ->
  ForallOrdPairs
    (fun r1 r2 => channel r1 = channel r2 -> base r1 + count r1 <= base r2)
    (fst (run g schedule)).
Proof.
  revert g. induction schedule as [|q rest IH]; intros g Hnn.
  - constructor.
  - inversion Hnn as [|? ? Hq Hrest]; subst.
    rewrite run_cons. cbn [fst]. constructor; [|apply IH; exact Hrest].
    apply Forall_forall. intros r Hin Hch.
    apply run_base_ge in Hin; [|exact Hrest].
    rewrite ReserveGlobalOffset_cursor in Hin.
    rewrite ReserveGlobalOffset_range in Hch |- *.
    cbn [channel base count] in *. rewrite <- Hch in Hin.
    destruct (req_channel q); cbn [Channel_eqb] in Hin; lia.
Qed.

(** C4. [ReserveGlobalOffset] is injective.  When every block performs
    exactly one atomic fetch-and-add of its tile's channel total on that
    channel's cursor, then for every interleaving of these steps each step
    is answered with a range of the requested length, and the ranges
    [[base, base + count)] handed to distinct tiles on the same channel are
    pairwise disjoint: no offset lies in two of them. *)
Theorem ReserveGlobalOffset_injective
  (g : Cursors) (tiles : list Tile) (schedule : list Request) :
  (forall t, In t tiles -> 0 <= coarse_total t /\ 0 <= fine_total t) ->
  Permutation schedule (flat_map requests_of tiles) ->
  let ranges := fst (run g schedule) in
  map served ranges = schedule /\
  (forall t ch,
      In t tiles ->
      exists r,
        In r ranges /\ tile r = tile_id t /\ channel r = ch /\
        count r = match ch with
                  | Coarse => coarse_total t
                  | Fine => fine_total t
                  end) /\
  (forall r1 r2,
      In r1 ranges -> In r2 ranges ->
      channel r1 = channel r2 ->
      tile r1 <> tile r2 ->
      disjoint r1 r2 /\ forall x, ~ (covers r1 x /\ covers r2 x)).
Proof.
  intros Hnn Hperm ranges.
  assert (Hserved : map served ranges = schedule) by apply run_served.
  assert (Hall : Forall nonneg_request schedule).
  { apply Forall_forall. intros q Hq.
    apply (Permutation_in _ Hperm) in Hq. apply in_flat_map in Hq.
    destruct Hq as (t & Ht & Hq). destruct (Hnn t Ht) as [Hc Hf].
    unfold requests_of in Hq. cbn [In] in Hq.
    destruct Hq as [<-|[<-|[]]]; assumption. }
  split; [exact Hserved|]. split.
  - intros t ch Ht.
    set (q := {| req_tile := tile_id t; req_channel := ch;
                 req_count := match ch with
                              | Coarse => coarse_total t
                              | Fine => fine_total t
                              end |}).
    assert (Hq : In q schedule).
    { apply (Permutation_in _ (Permutation_sym Hperm)).
      apply in_flat_map. exists t. split; [exact Ht|].
      unfold requests_of, q. destruct ch; cbn [In]; auto. }
    rewrite <- Hserved in Hq. apply in_map_iff in Hq.
    destruct Hq as (r & Hr & Hin). exists r.
    split; [exact Hin|]. unfold served, q in Hr.
    injection Hr as H1 H2 H3. auto.
  - intros r1 r2 H1 H2 Hch Hne.
    assert (Hd : disjoint r1 r2).
    { pose proof (run_ordered schedule g Hall) as Hord.
      fold ranges in Hord.
      destruct (ForallOrdPairs_In Hord r1 r2 H1 H2) as [Heq|[H|H]].
      - subst r2. contradiction.
      - left. apply H. exact Hch.
      - right. apply H. symmetry. exact Hch. }
    split; [exact Hd|].
    intros x [Hx1 Hx2]. unfold disjoint, covers in *. lia.
Qed.

Lemma ReserveGlobalOffset_injective_witness :
  fst (run {| coarse_cursor := 100; fine_cursor := 7 |} interleaved)
  = [ {| tile := 1; channel := Coarse; base := 100; count := 5 |};
      {| tile := 0; channel := Coarse; base := 105; count := 3 |};
      {| tile := 0; channel := Fine; base := 7; count := 10 |};
      {| tile := 1; channel := Fine; base := 17; count := 0 |} ] /\
  disjoint {| tile := 1; channel := Coarse; base := 100; count := 5 |}
           {| tile := 0; channel := Coarse; base := 105; count := 3 |}.
Proof.
  split; [reflexivity|].
  assert (Hnn : forall t, In t [tile_a; tile_b] ->
                          0 <= coarse_total t /\ 0 <= fine_total t).
  { intros t [<-|[<-|[]]]; cbv; intuition congruence. }
  assert (Hperm : Permutation interleaved
                    (flat_map requests_of [tile_a; tile_b])).
  { cbn. eapply perm_trans; [apply perm_swap|].
    apply perm_skip. apply perm_swap. }
  destruct (ReserveGlobalOffset_injective
              {| coarse_cursor := 100; fine_cursor := 7 |}
              [tile_a; tile_b] interleaved Hnn Hperm)
    as (_ & _ & Hdisj).
  apply Hdisj.
  - left. reflexivity.
  - right. left. reflexivity.
  - reflexivity.
  - cbn. discriminate.
Defined.

End ReservationClaims.

(** ** Work distribution *)

Section WorkDistributionFacts.
Import WorkDistribution.

Variables total grid g : Z.
Hypothesis total_nonneg : 0 <= total.
Hypothesis grid_pos : 1 <= grid.
Hypothesis g_pos : 1 <= g.

Local Abbreviation w := (init total g grid).



















End WorkDistributionFacts.

Section WorkDistributionClaims.
Import WorkDistribution Samples.




Example plan_9_2_4_ranges :
  plan_9_2_4
  = [ {| offset := 0; length := 8; guarded_offset := 8; guarded_length := 0 |};
      {| offset := 8; length := 1; guarded_offset := 8; guarded_length := 1 |} ].
Proof. reflexivity. Qed.












End WorkDistributionClaims.

(* ================================================================== *)
(** * Further properties *)
(* ================================================================== *)

(** ** KernelConfig: how the derived constants fit together *)

Section KernelConfigComposition.
Import ConstExpr KernelConfig Samples.

(** When the tile size is defined and positive and the three log2 tunables
    it is built from are not negative, every size below it is defined too,
    and the sizes multiply up: a load stride is one vector per thread, a
    thread's share of a tile is one vector per load, and a tile is one share
    per thread, which is one stride per load. *)
Theorem tile_size_decomposes (T : Tunables) (tile : Z) :
  TILE_ELEMENTS T = Some tile ->
  0 < tile ->
  0 <= LOG_THREADS T ->
  0 <= LOG_LOAD_VEC_SIZE T ->
  0 <= LOG_LOADS_PER_TILE T ->
  exists threads vec loads stride per_thread,
    THREADS T = Some threads /\
    LOAD_VEC_SIZE T = Some vec /\
    LOADS_PER_TILE T = Some loads /\
    LOAD_STRIDE T = Some stride /\
    TILE_ELEMENTS_PER_THREAD T = Some per_thread /\
    stride = threads * vec /\
    per_thread = vec * loads /\
    tile = per_thread * threads /\
    tile = stride * loads /\
    0 < threads <= tile /\ 0 < vec /\ 0 < loads.
Proof.
  intros Htile Hpos Ht Hv Hl.
  apply shl_1_pos in Htile; [|left; exact Hpos].
  destruct Htile as [Hr ->].
  unfold LOG_TILE_ELEMENTS, LOG_TILE_ELEMENTS_PER_THREAD in *.
  exists (2 ^ LOG_THREADS T), (2 ^ LOG_LOAD_VEC_SIZE T),
    (2 ^ LOG_LOADS_PER_TILE T), (2 ^ LOG_LOAD_STRIDE T),
    (2 ^ LOG_TILE_ELEMENTS_PER_THREAD T).
  unfold LOG_LOAD_STRIDE, LOG_TILE_ELEMENTS_PER_THREAD.
  assert (H1 : 0 < 2 ^ LOG_THREADS T) by (apply Z.pow_pos_nonneg; lia).
  assert (H2 : 0 < 2 ^ LOG_LOAD_VEC_SIZE T) by (apply Z.pow_pos_nonneg; lia).
  assert (H3 : 0 < 2 ^ LOG_LOADS_PER_TILE T) by (apply Z.pow_pos_nonneg; lia).
  assert (Hle : 2 ^ LOG_THREADS T
                <= 2 ^ (LOG_LOAD_VEC_SIZE T + LOG_LOADS_PER_TILE T
                        + LOG_THREADS T))
    by (apply Z.pow_le_mono_r; lia).
  split; [apply shl_1_below_31; lia|].
  split; [apply shl_1_below_31; lia|].
  split; [apply shl_1_below_31; lia|].
  split; [apply shl_1_below_31;
          unfold LOG_LOAD_STRIDE; lia|].
  split; [apply shl_1_below_31;
          unfold LOG_TILE_ELEMENTS_PER_THREAD; lia|].
  split; [rewrite Z.pow_add_r by lia; ring|].
  split; [rewrite Z.pow_add_r by lia; ring|].
  split; [rewrite !Z.pow_add_r by lia; ring|].
  split; [rewrite !Z.pow_add_r by lia; ring|].
  repeat split; assumption.
Qed.

Lemma tile_size_decomposes_witness :
  exists threads vec loads stride per_thread,
    THREADS tuned256 = Some threads /\
    LOAD_VEC_SIZE tuned256 = Some vec /\
    LOADS_PER_TILE tuned256 = Some loads /\
    LOAD_STRIDE tuned256 = Some stride /\
    TILE_ELEMENTS_PER_THREAD tuned256 = Some per_thread /\
    512 = per_thread * threads /\ 512 = stride * loads.
Proof.
  destruct (tile_size_decomposes tuned256 512)
    as (th & v & l & s & p & H1 & H2 & H3 & H4 & H5 & _ & _ & H6 & H7 & _).
  - reflexivity.
  - reflexivity.
  - cbv. congruence.
  - cbv. congruence.
  - cbv. congruence.
  - exists th, v, l, s, p. repeat split; assumption.
Defined.

(** The warps tile the block: when the warp width is the power of two that
    its log2 says and the warp count is defined, the thread count is defined
    and is the warp count times the warp width, so the [WARPS] rows of
    [WarpComm] are one per warp of the block. *)
Theorem warps_times_warp_width_is_threads
  (a : CudaArch) (P : ProblemType) (T : Tunables) (warps : Z) :
  WARPS a T = Some warps ->
  0 <= B40C_LOG_WARP_THREADS a ->
  LOG_THREADS T < 31 ->
  B40C_WARP_THREADS a = 2 ^ B40C_LOG_WARP_THREADS a ->
  0 < warps /\
  THREADS T = Some (warps * B40C_WARP_THREADS a) /\
  sizeof_WarpComm a P T = Some (warps * 4 * sizeof_SizeT P).
Proof.
  intros Hw Hlog Hlt Hwidth. unfold sizeof_WarpComm. rewrite Hw.
  apply shl_1_pos in Hw; [|right; unfold LOG_WARPS; lia].
  destruct Hw as [Hr ->]. unfold LOG_WARPS in *.
  assert (Hpos : 0 < 2 ^ (LOG_THREADS T - B40C_LOG_WARP_THREADS a))
    by (apply Z.pow_pos_nonneg; lia).
  split; [exact Hpos|].
  split; [|cbn [bind]; apply Z.ltb_lt in Hpos; rewrite Hpos; reflexivity].
  rewrite Hwidth, <- Z.pow_add_r by lia.
  replace (LOG_THREADS T - B40C_LOG_WARP_THREADS a + B40C_LOG_WARP_THREADS a)
    with (LOG_THREADS T) by lia.
  apply shl_1_below_31. lia.
Qed.

Lemma warps_times_warp_width_is_threads_witness :
  THREADS tuned256 = Some (8 * B40C_WARP_THREADS sm20).
Proof.
  destruct (warps_times_warp_width_is_threads sm20 bfs_problem tuned256 8)
    as (_ & H & _).
  - reflexivity.
  - cbv. congruence.
  - reflexivity.
  - reflexivity.
  - exact H.
Defined.

End KernelConfigComposition.

(** ** KernelConfig: occupancy *)

Section KernelConfigOccupancy.
Import ConstExpr KernelConfig Samples.

Lemma div_pow2_pos_iff (a k : Z) : 0 <= k -> (0 < a / 2 ^ k <-> 2 ^ k <= a).
Proof.
  intros Hk. assert (Hp : 0 < 2 ^ k) by (apply Z.pow_pos_nonneg; lia).
  split.
  - intros H. destruct (Z_lt_le_dec a (2 ^ k)) as [Hlt|Hge]; [|exact Hge].
    pose proof (Z.div_lt_upper_bound a (2 ^ k) 1 Hp ltac:(lia)). lia.
  - intros H. apply Z.div_str_pos. lia.
Qed.

Lemma quot_pos_iff (a d : Z) : 0 < d -> (0 < Z.quot a d <-> d <= a).
Proof.
  intros Hd. split.
  - intros H. pose proof (quot_pos_num a d Hd H) as Ha.
    destruct (Z_lt_le_dec a d) as [Hlt|Hge]; [|exact Hge].
    rewrite Z.quot_small in H by lia. lia.
  - intros H. apply Z.quot_str_pos. lia.
Qed.

Lemma SMEM_QUADS_nonneg (sz : N) : 0 <= SMEM_QUADS sz.
Proof. apply B40C_QUADS_covers. apply N2Z.is_nonneg. Qed.


Lemma SMEM_QUADS_mono (sz sz' : N) :
  (sz <= sz')%N -> SMEM_QUADS sz <= SMEM_QUADS sz'.
Proof.
  intros H. unfold SMEM_QUADS, B40C_QUADS, sizeof_uint4.
  apply Z.quot_le_mono; lia.
Qed.

Lemma VALID_Some_iff (a : CudaArch) (T : Tunables) (sz : N) (b : bool) :
  VALID a T sz = Some b ->
  0 <= LOG_THREADS T < 32 /\
  0 < SMEM_QUADS sz /\
  (b = true <->
   0 < _MAX_CTA_OCCUPANCY T /\
   0 < B40C_SM_CTAS a /\
   2 ^ LOG_THREADS T <= B40C_SM_THREADS a /\
   SMEM_QUADS sz * sizeof_uint4 <= B40C_SMEM_BYTES a).
Proof.
  pose proof (SMEM_QUADS_nonneg sz) as Hq0.
  intros Hv. unfold VALID in Hv. apply bind_Some in Hv.
  destruct Hv as (occ & Hocc & [= <-]).
  apply CTA_OCCUPANCY_Some in Hocc.
  destruct Hocc as (thr & sm & Hthr & Hsm & ->).
  apply shr_Some in Hthr. destruct Hthr as [Hk ->].
  unfold SMEM_OCCUPANCY in Hsm. apply div_Some in Hsm.
  destruct Hsm as [Hd ->].
  assert (Hq : 0 < SMEM_QUADS sz) by (unfold sizeof_uint4 in Hd; lia).
  assert (Hdpos : 0 < SMEM_QUADS sz * sizeof_uint4)
    by (unfold sizeof_uint4; lia).
  split; [exact Hk|]. split; [exact Hq|].
  pose proof (div_pow2_pos_iff (B40C_SM_THREADS a) (LOG_THREADS T)
                ltac:(lia)) as Hthreads.
  pose proof (quot_pos_iff (B40C_SMEM_BYTES a) _ Hdpos) as Hfit.
  unfold B40C_MIN. rewrite Z.ltb_lt. lia.
Qed.

(** [VALID], where the class has one, says exactly that one block fits the
    SM: the declared and the hardware CTA limits are positive, the block has
    no more threads than the SM, and its shared-memory footprint is no
    larger than the SM's shared memory. *)
Theorem VALID_iff_one_block_fits
  (a : CudaArch) (P : ProblemType) (T : Tunables) (szWD : Z)
  (compiler_sizeof : option N) (b : bool) :
  KernelConfig_VALID a P T szWD compiler_sizeof = Some b ->
  exists sz,
    compiler_sizeof = Some sz /\
    0 < SMEM_QUADS sz /\
    (b = true <->
     0 < _MAX_CTA_OCCUPANCY T /\
     0 < B40C_SM_CTAS a /\
     2 ^ LOG_THREADS T <= B40C_SM_THREADS a /\
     SMEM_QUADS sz * sizeof_uint4 <= B40C_SMEM_BYTES a).
Proof.
  intros Hv.
  destruct (KernelConfig_VALID_Some a P T szWD compiler_sizeof b Hv)
    as [_ (sz & Hsz & Hvalid)].
  destruct (VALID_Some_iff a T sz b Hvalid) as (_ & Hq & Hiff).
  exists sz. split; [exact Hsz|]. split; [exact Hq | exact Hiff].
Qed.

Lemma VALID_iff_one_block_fits_witness :
  2 ^ LOG_THREADS tuned256 <= B40C_SM_THREADS sm20 /\
  SMEM_QUADS 6016 * sizeof_uint4 <= B40C_SMEM_BYTES sm20.
Proof.
  destruct (VALID_iff_one_block_fits
              sm20 bfs_problem tuned256 48 (Some 6016%N) true eq_refl)
    as (sz & Hsz & _ & Hiff).
  injection Hsz as <-.
  destruct Hiff as [Hfit _].
  destruct (Hfit eq_refl) as (_ & _ & Hthreads & Hsmem).
  split; [exact Hthreads | exact Hsmem].
Defined.

(** The occupancy never exceeds a limit: it is at most the declared
    maximum and the SM's CTA limit, that many blocks have no more threads
    than the SM, and it is one of the four bounds it is computed from. *)
Theorem CTA_OCCUPANCY_within_limits
  (a : CudaArch) (T : Tunables) (sz : N) (occ : Z) :
  CTA_OCCUPANCY a T sz = Some occ ->
  occ <= _MAX_CTA_OCCUPANCY T /\
  occ <= B40C_SM_CTAS a /\
  occ * 2 ^ LOG_THREADS T <= B40C_SM_THREADS a /\
  (forall threads, THREADS T = Some threads -> 0 < threads ->
                   occ * threads <= B40C_SM_THREADS a) /\
  (occ = _MAX_CTA_OCCUPANCY T \/ occ = B40C_SM_CTAS a \/
   THREAD_OCCUPANCY a T = Some occ \/ SMEM_OCCUPANCY a sz = Some occ).
Proof.
  intros Hocc. apply CTA_OCCUPANCY_Some in Hocc.
  destruct Hocc as (thr & sm & Hthr & Hsm & ->).
  pose proof Hthr as Hthr'. apply shr_Some in Hthr'.
  destruct Hthr' as [Hk Ethr].
  assert (Hp : 0 < 2 ^ LOG_THREADS T) by (apply Z.pow_pos_nonneg; lia).
  pose proof (Z.mul_div_le (B40C_SM_THREADS a) (2 ^ LOG_THREADS T) Hp) as Hm.
  rewrite <- Ethr in Hm.
  assert (Hfit : Z.min (_MAX_CTA_OCCUPANCY T)
                   (Z.min (B40C_SM_CTAS a) (Z.min thr sm))
                 * 2 ^ LOG_THREADS T <= B40C_SM_THREADS a) by nia.
  split; [lia|]. split; [lia|]. split; [exact Hfit|]. split.
  - intros threads Hthreads Hpos.
    apply shl_1_pos in Hthreads; [|left; exact Hpos].
    destruct Hthreads as [_ ->]. exact Hfit.
  - rewrite Hthr, Hsm.
    destruct (Z.min_spec (_MAX_CTA_OCCUPANCY T)
                (Z.min (B40C_SM_CTAS a) (Z.min thr sm))) as [[_ E]|[_ E]];
      rewrite E; [left; reflexivity|].
    destruct (Z.min_spec (B40C_SM_CTAS a) (Z.min thr sm)) as [[_ E']|[_ E']];
      rewrite E'; [right; left; reflexivity|].
    destruct (Z.min_spec thr sm) as [[_ E'']|[_ E'']]; rewrite E''; auto.
Qed.

Lemma CTA_OCCUPANCY_within_limits_witness :
  6 * 2 ^ LOG_THREADS tuned256 <= B40C_SM_THREADS sm20.
Proof.
  destruct (CTA_OCCUPANCY_within_limits sm20 tuned256 6016 6 eq_refl)
    as (_ & _ & H & _).
  exact H.
Defined.

(** A more demanding configuration never gets a higher occupancy: with a
    declared maximum no larger, at least as many threads per block and a
    shared-memory structure at least as large, the occupancy is no
    larger. *)
Theorem CTA_OCCUPANCY_antitone
  (a : CudaArch) (T T' : Tunables) (sz sz' : N) (occ occ' : Z) :
  0 <= B40C_SM_THREADS a ->
  0 <= B40C_SMEM_BYTES a ->
  _MAX_CTA_OCCUPANCY T' <= _MAX_CTA_OCCUPANCY T ->
  LOG_THREADS T <= LOG_THREADS T' ->
  (sz <= sz')%N ->
  CTA_OCCUPANCY a T sz = Some occ ->
  CTA_OCCUPANCY a T' sz' = Some occ' ->
  occ' <= occ.
Proof.
  intros Hthreads Hbytes Hmax Hlog Hsz Hocc Hocc'.
  apply CTA_OCCUPANCY_Some in Hocc, Hocc'.
  destruct Hocc as (thr & sm & Hthr & Hsm & ->).
  destruct Hocc' as (thr' & sm' & Hthr' & Hsm' & ->).
  apply shr_Some in Hthr, Hthr'.
  destruct Hthr as [Hk ->], Hthr' as [Hk' ->].
  unfold SMEM_OCCUPANCY in Hsm, Hsm'. apply div_Some in Hsm, Hsm'.
  destruct Hsm as [Hd ->], Hsm' as [Hd' ->].
  pose proof (SMEM_QUADS_nonneg sz). pose proof (SMEM_QUADS_mono sz sz' Hsz).
  assert (Hthr_le : B40C_SM_THREADS a / 2 ^ LOG_THREADS T'
                    <= B40C_SM_THREADS a / 2 ^ LOG_THREADS T).
  { apply Z.div_le_compat_l; [exact Hthreads|]. split.
    - apply Z.pow_pos_nonneg; lia.
    - apply Z.pow_le_mono_r; lia. }
  assert (Hsm_le : Z.quot (B40C_SMEM_BYTES a) (SMEM_QUADS sz' * sizeof_uint4)
                   <= Z.quot (B40C_SMEM_BYTES a)
                        (SMEM_QUADS sz * sizeof_uint4)).
  { apply Z.quot_le_compat_l; [exact Hbytes|].
    unfold sizeof_uint4 in *. lia. }
  lia.
Qed.

Lemma CTA_OCCUPANCY_antitone_witness :
  exists occ occ',
    CTA_OCCUPANCY sm20 tuned16 1024 = Some occ /\
    CTA_OCCUPANCY sm20 tuned256 6016 = Some occ' /\
    occ' <= occ.
Proof.
  exists 8, 6. split; [reflexivity|]. split; [reflexivity|].
  apply (CTA_OCCUPANCY_antitone sm20 tuned16 tuned256 1024 6016 8 6);
    try reflexivity; cbv; congruence.
Defined.


Lemma FULL_OCCUPANCY_BYTES_inv
  (a : CudaArch) (P : ProblemType) (T : Tunables) (szWD full warp_comm : Z) :
  sizeof_WarpComm a P T = Some warp_comm ->
  FULL_OCCUPANCY_BYTES a P T szWD = Some full ->
  _MAX_CTA_OCCUPANCY T <> 0 /\
  full = size_t (Z.quot (B40C_SMEM_BYTES a) (_MAX_CTA_OCCUPANCY T)
                 - szWD - warp_comm
                 - sizeof_warpscan a P - sizeof_warpscan a P
                 - sizeof_SizeT P - sizeof_SizeT P - 128).
Proof.
  intros Hwc Hfull. unfold FULL_OCCUPANCY_BYTES in Hfull.
  apply bind_Some in Hfull. destruct Hfull as (share & Hshare & Hfull).
  rewrite Hwc in Hfull. cbn [bind] in Hfull. injection Hfull as <-.
  apply div_Some in Hshare. destruct Hshare as [Hne ->]. auto.
Qed.



End KernelConfigOccupancy.

(** ** Tuned memcopy enactor: what a copy is turned into *)

Section MemcopyAccounting.
Import ConstExpr Memcopy Samples.

Lemma to_int_size_t (z : Z) : to_int (size_t z) = to_int z.
Proof.
  unfold to_int, size_t. f_equal.
  pose proof (Z.div_mod z (2 ^ 64) ltac:(cbv; congruence)) as H.
  replace (z mod 2 ^ 64 + 2 ^ 31)
    with (z + 2 ^ 31 + (- (2 ^ 32 * (z / 2 ^ 64))) * 2 ^ 32).
  - apply Z.mod_add. cbv. congruence.
  - change (2 ^ 64) with (2 ^ 32 * 2 ^ 32) in H at 1. lia.
Qed.

Lemma to_int_periodic (z k : Z) : to_int (z + k * 2 ^ 32) = to_int z.
Proof.
  unfold to_int. f_equal.
  replace (z + k * 2 ^ 32 + 2 ^ 31) with (z + 2 ^ 31 + k * 2 ^ 32) by ring.
  apply Z.mod_add. cbv. congruence.
Qed.

(** The accounting of [Enact<CUDA_ARCH>] is exact whenever the quotient and
    the remainder are [int]s. *)
Lemma Enact_arch_exact
  (large small : TunedConfig) (storage : Storage) (detail : Detail) :
  let call := Enact_arch large small storage detail in
  let size := Z.pos (sizeof_T (Base (config call))) in
  0 <= num_bytes storage < 2 ^ 64 ->
  num_bytes storage / size < 2 ^ 31 ->
  num_bytes storage mod size < 2 ^ 31 ->
  num_elements call = num_bytes storage / size /\
  extra_bytes call = num_bytes storage mod size.
Proof.
  cbv zeta. unfold Enact_arch. cbn [config num_elements extra_bytes].
  set (size := Z.pos (sizeof_T (Base (tuned_granularity large small
                                        (detail_enum detail))))).
  set (n := num_bytes storage).
  intros Hn Hq Hr.
  assert (Hpos : 0 < size) by (unfold size; lia).
  rewrite Z.quot_div_nonneg by lia.
  pose proof (Z.div_pos n size ltac:(lia) Hpos) as Hq0.
  pose proof (Z.div_mod n size ltac:(lia)) as Hdm.
  pose proof (Z.mod_pos_bound n size Hpos) as Hm.
  assert (H31 : 0 < 2 ^ 31) by reflexivity.
  assert (H3164 : 2 ^ 31 < 2 ^ 64) by reflexivity.
  rewrite (to_int_small (n / size)) by lia.
  rewrite to_int_size_t.
  rewrite (size_t_small (n / size)) by lia.
  assert (Hprod : 0 <= n / size * size <= n) by nia.
  rewrite (size_t_small (n / size * size)) by lia.
  replace (n - n / size * size) with (n mod size) by lia.
  rewrite (to_int_small (n mod size)) by lia.
  split; reflexivity.
Qed.

(** Every copy that the enactor treats as a small problem is accounted for
    exactly, whatever the element type: up to [1024 * 2252] bytes the call
    goes to the [SMALL_PROBLEM] configuration with [num_bytes / sizeof(T)]
    whole elements and [num_bytes mod sizeof(T)] trailing bytes, which add
    up to [num_bytes]; an empty copy has neither. *)
Theorem small_copies_are_accounted_exactly
  (large small : TunedConfig) (dst src bytes grid : Z) :
  0 <= bytes <= 1024 * 2252 ->
  let call := Enact large small dst src bytes grid in
  let size := Z.pos (sizeof_T small) in
  GRANULARITY_ENUM (config call) = SMALL_PROBLEM /\
  Base (config call) = small /\
  num_elements call = bytes / size /\
  extra_bytes call = bytes mod size /\
  num_elements call * size + extra_bytes call = bytes /\
  0 <= num_elements call /\
  0 <= extra_bytes call < size /\
  (bytes = 0 -> num_elements call = 0 /\ extra_bytes call = 0).
Proof.
  intros Hn call size. subst call.
  rewrite Enact_unfold.
  destruct (Z.gtb_spec bytes (1024 * 2252)) as [Hgt|_]; [lia|].
  unfold Enact_tuned.
  set (storage := {| d_dest := dst; d_src := src; num_bytes := bytes |}).
  set (detail := {| detail_enum := SMALL_PROBLEM; max_grid_size := grid |}).
  assert (Hpos : 0 < size) by (unfold size; lia).
  pose proof (Z.div_pos bytes size ltac:(lia) Hpos) as Hq0.
  pose proof (Z.div_mod bytes size ltac:(lia)) as Hdm.
  pose proof (Z.mod_pos_bound bytes size Hpos) as Hm.
  assert (Hq : bytes / size <= bytes)
    by (apply Z.div_le_upper_bound; nia).
  assert (Hr : bytes mod size <= bytes)
    by (apply Z.mod_le; lia).
  change (1024 * 2252) with 2306048 in Hn.
  assert (H31 : 2306048 < 2 ^ 31) by reflexivity.
  assert (H64 : 2306048 < 2 ^ 64) by reflexivity.
  pose proof (Enact_arch_exact large small storage detail) as Hexact.
  cbv zeta in Hexact.
  change (num_bytes storage) with bytes in Hexact.
  change (Z.pos (sizeof_T (Base (config (Enact_arch large small storage
                                           detail))))) with size in Hexact.
  destruct Hexact as [Hne Hex]; [lia | lia | lia |].
  split; [reflexivity|]. split; [reflexivity|].
  rewrite Hne, Hex. repeat split; lia.
Qed.

Lemma small_copies_are_accounted_exactly_witness :
  num_elements (Enact large_preset small_preset 0 0 4099 0) = 1024 /\
  extra_bytes (Enact large_preset small_preset 0 0 4099 0) = 3.
Proof.
  destruct (small_copies_are_accounted_exactly
              large_preset small_preset 0 0 4099 0)
    as (_ & _ & Hn & He & _).
  - cbv. intuition congruence.
  - split; [exact Hn | exact He].
Defined.

(** Within the range of [int] the enactor hands the whole copy on: for
    [num_bytes] below [2^31] elements of the selected configuration's type
    the call carries [num_bytes / sizeof(T)] elements and
    [num_bytes mod sizeof(T)] trailing bytes, which add up to [num_bytes],
    and the pointers and the grid bound are passed on unchanged. *)
Theorem Enact_accounts_exactly_in_int_range
  (large small : TunedConfig) (dst src bytes grid : Z) :
  let call := Enact large small dst src bytes grid in
  let size := Z.pos (sizeof_T (Base (config call))) in
  size <= 2 ^ 31 ->
  0 <= bytes < 2 ^ 31 * size ->
  num_elements call = bytes / size /\
  extra_bytes call = bytes mod size /\
  num_elements call * size + extra_bytes call = bytes /\
  0 <= num_elements call < 2 ^ 31 /\
  0 <= extra_bytes call < size /\
  (bytes mod size = 0 -> extra_bytes call = 0) /\
  base_d_dest call = dst /\ base_d_src call = src /\
  base_max_grid_size call = grid.
Proof.
  cbv zeta. rewrite Enact_unfold. unfold Enact_tuned.
  set (e := if bytes >? 1024 * 2252 then LARGE_PROBLEM else SMALL_PROBLEM).
  set (storage := {| d_dest := dst; d_src := src; num_bytes := bytes |}).
  set (detail := {| detail_enum := e; max_grid_size := grid |}).
  intros Hsize Hn.
  pose proof (Enact_arch_accounting_in_int_range large small storage detail)
    as H.
  cbv zeta in H. change (num_bytes storage) with bytes in H.
  destruct (H Hsize Hn) as (Hne & Hex & Hsum & Hr).
  assert (Hpos : 0 < Z.pos (sizeof_T (Base (config (Enact_arch large small
                                                      storage detail)))))
    by lia.
  pose proof (Z.div_pos bytes _ ltac:(lia) Hpos) as Hq0.
  pose proof (Z.div_lt_upper_bound bytes _ (2 ^ 31) Hpos ltac:(lia)) as Hq1.
  repeat split; try assumption; try lia; reflexivity.
Qed.

Lemma Enact_accounts_exactly_in_int_range_witness :
  num_elements (Enact large_preset small_preset 0 0 4000003 0) = 1000000 /\
  extra_bytes (Enact large_preset small_preset 0 0 4000003 0) = 3.
Proof.
  destruct (Enact_accounts_exactly_in_int_range
              large_preset small_preset 0 0 4000003 0)
    as (Hn & He & _).
  - cbv. congruence.
  - cbv. intuition congruence.
  - split; [exact Hn | exact He].
Defined.

(** An [int] cannot tell copies apart that differ by a multiple of [2^32]
    elements: for every size class, adding [k * 2^32 * sizeof(T)] bytes to a
    copy leaves [num_elements] and [extra_bytes] as they were.  A copy of
    exactly [k * 2^32] elements is handed on as an empty one. *)
Theorem Enact_tuned_forgets_multiples_of_2_32_elements
  (large small : TunedConfig) (e : TunedGranularityEnum)
  (dst src bytes grid k : Z) :
  let size := Z.pos (sizeof_T (Base (tuned_granularity large small e))) in
  let more := bytes + k * 2 ^ 32 * size in
  0 <= bytes -> 0 <= k ->
  num_elements (Enact_tuned large small e dst src more grid)
  = num_elements (Enact_tuned large small e dst src bytes grid) /\
  extra_bytes (Enact_tuned large small e dst src more grid)
  = extra_bytes (Enact_tuned large small e dst src bytes grid) /\
  (bytes = 0 ->
   num_elements (Enact_tuned large small e dst src more grid) = 0 /\
   extra_bytes (Enact_tuned large small e dst src more grid) = 0).
Proof.
  intros size more Hn Hk.
  unfold Enact_tuned, Enact_arch.
  cbn [config num_elements extra_bytes num_bytes detail_enum].
  fold size. unfold more.
  assert (Hpos : 0 < size) by (unfold size; lia).
  assert (Hquot : Z.quot (bytes + k * 2 ^ 32 * size) size
                  = Z.quot bytes size + k * 2 ^ 32).
  { rewrite !Z.quot_div_nonneg by nia.
    replace (bytes + k * 2 ^ 32 * size) with (bytes + (k * 2 ^ 32) * size)
      by ring.
    apply Z.div_add. lia. }
  rewrite Hquot, to_int_periodic.
  set (ne := to_int (Z.quot bytes size)).
  rewrite !to_int_size_t.
  assert (Hex : to_int (bytes + k * 2 ^ 32 * size - size_t (size_t ne * size))
                = to_int (bytes - size_t (size_t ne * size))).
  { replace (bytes + k * 2 ^ 32 * size - size_t (size_t ne * size))
      with (bytes - size_t (size_t ne * size) + (k * size) * 2 ^ 32) by ring.
    apply to_int_periodic. }
  split; [reflexivity|]. split; [exact Hex|].
  intros E. rewrite Hex. unfold ne. rewrite E.
  split; reflexivity.
Qed.

Lemma Enact_tuned_forgets_multiples_witness :
  num_elements
    (Enact_tuned large_preset small_preset LARGE_PROBLEM 0 0 (2 ^ 34) 0) = 0 /\
  extra_bytes
    (Enact_tuned large_preset small_preset LARGE_PROBLEM 0 0 (2 ^ 34) 0) = 0.
Proof.
  destruct (Enact_tuned_forgets_multiples_of_2_32_elements
              large_preset small_preset LARGE_PROBLEM 0 0 0 0 1)
    as (_ & _ & H).
  - cbv. congruence.
  - cbv. congruence.
  - apply H. reflexivity.
Defined.

End MemcopyAccounting.

(** ** The scan operator as a reduction *)

Section SoaScanOpReduction.
Import KernelConfig Samples.

Lemma SizeT_add_mod_l (P : ProblemType) (a b : Z) :
  SizeT_add P (a mod 2 ^ SizeT_bits P) b = SizeT_add P a b.
Proof. unfold SizeT_add. apply Zplus_mod_idemp_l. Qed.

Lemma fold_SoaScanOp_channels (P : ProblemType) (xs : list SoaTuple)
  (acc : SoaTuple) :
  t0 (fold_left (SoaScanOp P) xs acc)
  = fold_left (SizeT_add P) (map t0 xs) (t0 acc) /\
  t1 (fold_left (SoaScanOp P) xs acc)
  = fold_left (SizeT_add P) (map t1 xs) (t1 acc).
Proof.
  revert acc. induction xs as [|x xs IH]; intros acc; [split; reflexivity|].
  cbn [fold_left map]. destruct (IH (SoaScanOp P acc x)) as [H0 H1].
  rewrite H0, H1. split; reflexivity.
Qed.

Lemma fold_SizeT_add_sum (P : ProblemType) (vs : list Z) (c : Z) :
  fold_left (SizeT_add P) vs (c mod 2 ^ SizeT_bits P)
  = (c + fold_right Z.add 0 vs) mod 2 ^ SizeT_bits P.
Proof.
  revert c. induction vs as [|v vs IH]; intros c.
  - cbn. rewrite Z.add_0_r. reflexivity.
  - cbn [fold_left fold_right]. rewrite SizeT_add_mod_l.
    unfold SizeT_add at 2. rewrite IH. f_equal. ring.
Qed.

(** Reducing a tile with [SoaScanOp] from [SoaTupleIdentity] gives, in each
    channel, the sum of that channel's counts modulo [2^bits]; it is the
    exact sum whenever that sum is a [SizeT] value.  The reduction can be
    taken in chunks: the reduction of a concatenation is the combination of
    the reductions of its parts. *)
Theorem SoaScanOp_reduction_is_channel_sums (P : ProblemType) :
  let reduce := fun xs => fold_left (SoaScanOp P) xs SoaTupleIdentity in
  let total0 := fun xs => fold_right Z.add 0 (map t0 xs) in
  let total1 := fun xs => fold_right Z.add 0 (map t1 xs) in
  (forall xs,
      t0 (reduce xs) = total0 xs mod 2 ^ SizeT_bits P /\
      t1 (reduce xs) = total1 xs mod 2 ^ SizeT_bits P) /\
  (forall xs,
      SizeT_value P (total0 xs) -> SizeT_value P (total1 xs) ->
      reduce xs = mkSoaTuple (total0 xs) (total1 xs)) /\
  (forall xs ys, reduce (xs ++ ys) = SoaScanOp P (reduce xs) (reduce ys)).
Proof.
  intros reduce total0 total1.
  assert (Hsum : forall xs,
             t0 (reduce xs) = total0 xs mod 2 ^ SizeT_bits P /\
             t1 (reduce xs) = total1 xs mod 2 ^ SizeT_bits P).
  { intros xs. unfold reduce, total0, total1.
    destruct (fold_SoaScanOp_channels P xs SoaTupleIdentity) as [H0 H1].
    rewrite H0, H1. cbn [t0 t1 SoaTupleIdentity].
    change 0 with (0 mod 2 ^ SizeT_bits P) at 1 3.
    rewrite !fold_SizeT_add_sum. split; f_equal; ring. }
  split; [exact Hsum|]. split.
  - intros xs H0 H1. destruct (Hsum xs) as [E0 E1].
    unfold SizeT_value in H0, H1.
    rewrite Z.mod_small in E0, E1 by assumption.
    destruct (reduce xs) as [c f]. cbn [t0 t1] in E0, E1. congruence.
  - intros xs ys.
    destruct (Hsum (xs ++ ys)) as [E0 E1].
    destruct (Hsum xs) as [X0 X1]. destruct (Hsum ys) as [Y0 Y1].
    unfold total0, total1 in *. rewrite !map_app, !fold_right_app in E0, E1.
    assert (Happ : forall us vs,
               fold_right Z.add (fold_right Z.add 0 vs) us
               = fold_right Z.add 0 us + fold_right Z.add 0 vs).
    { intros us vs. induction us as [|u us IHus]; cbn; lia. }
    rewrite Happ in E0, E1.
    destruct (reduce (xs ++ ys)) as [c f]. cbn [t0 t1] in E0, E1.
    unfold SoaScanOp, SizeT_add. rewrite X0, X1, Y0, Y1.
    rewrite <- !Zplus_mod. congruence.
Qed.

Lemma SoaScanOp_reduction_witness :
  fold_left (SoaScanOp bfs_problem)
    [mkSoaTuple 3 5; mkSoaTuple 1 0; mkSoaTuple 0 7] SoaTupleIdentity
  = mkSoaTuple 4 12.
Proof.
  destruct (SoaScanOp_reduction_is_channel_sums bfs_problem) as (_ & H & _).
  apply (H [mkSoaTuple 3 5; mkSoaTuple 1 0; mkSoaTuple 0 7]);
    cbv; intuition congruence.
Defined.

End SoaScanOpReduction.

(** ** Downsweep kernel: the texture window of a block *)

Section DownsweepEntry.
Import ConstExpr Downsweep.

(** Thread 0 publishes the work limits together with a texture window
    inside them.  For a positive [ELEMENTS_PER_TEX] and limits with
    [0 <= offset <= guarded_offset] the window is
    [[offset / ELEMENTS_PER_TEX, guarded_offset / ELEMENTS_PER_TEX)]: it is
    not inverted, no texel of it reaches past [guarded_offset], and when
    [offset] is texel-aligned none starts before [offset], so every texel of
    the window lies within the block's unguarded elements. *)
Theorem Kernel_texture_window_within_limits
  (ELEMENTS_PER_TEX : Z) (limits : WorkDistribution.WorkRange)
  (smem_storage : SmemStorage) :
  0 < ELEMENTS_PER_TEX ->
  0 <= WorkDistribution.offset limits
    <= WorkDistribution.guarded_offset limits ->
  exists s,
    Kernel_work_limits ELEMENTS_PER_TEX limits 0 smem_storage = Some s /\
    work_limits s = limits /\
    0 <= tex_offset s <= tex_offset_limit s /\
    tex_offset s * ELEMENTS_PER_TEX <= WorkDistribution.offset limits
      < (tex_offset s + 1) * ELEMENTS_PER_TEX /\
    (forall t,
        tex_offset s <= t < tex_offset_limit s ->
        WorkDistribution.offset limits - ELEMENTS_PER_TEX < t * ELEMENTS_PER_TEX
        /\ (t + 1) * ELEMENTS_PER_TEX
           <= WorkDistribution.guarded_offset limits) /\
    (WorkDistribution.offset limits mod ELEMENTS_PER_TEX = 0 ->
     forall t,
       tex_offset s <= t < tex_offset_limit s ->
       WorkDistribution.offset limits <= t * ELEMENTS_PER_TEX).
Proof.
  intros HE [Ho Hg].
  set (o := WorkDistribution.offset limits) in *.
  set (go := WorkDistribution.guarded_offset limits) in *.
  unfold Kernel_work_limits. cbn [Z.eqb]. unfold div.
  destruct (Z.eqb_spec ELEMENTS_PER_TEX 0) as [E|_]; [lia|].
  cbn [bind]. fold o go.
  rewrite !Z.quot_div_nonneg by lia.
  eexists. split; [reflexivity|]. cbn [work_limits tex_offset tex_offset_limit].
  pose proof (Z.div_pos o ELEMENTS_PER_TEX Ho HE) as Hq0.
  pose proof (Z.div_le_mono o go ELEMENTS_PER_TEX HE Hg) as Hmono.
  pose proof (Z.mul_div_le o ELEMENTS_PER_TEX HE) as Hlo.
  pose proof (Z.mul_succ_div_gt o ELEMENTS_PER_TEX HE) as Hhi.
  pose proof (Z.mul_div_le go ELEMENTS_PER_TEX HE) as Hglo.
  split; [reflexivity|]. split; [lia|]. split; [lia|]. split.
  - intros t Ht. split; nia.
  - intros Hal t Ht.
    pose proof (Z.div_mod o ELEMENTS_PER_TEX ltac:(lia)) as Hdm.
    rewrite Hal in Hdm. nia.
Qed.

Lemma Kernel_texture_window_witness :
  exists s,
    Kernel_work_limits 4
      {| WorkDistribution.offset := 512; WorkDistribution.length := 300;
         WorkDistribution.guarded_offset := 768;
         WorkDistribution.guarded_length := 44 |}
      0 {| work_limits :=
             {| WorkDistribution.offset := 0; WorkDistribution.length := 0;
                WorkDistribution.guarded_offset := 0;
                WorkDistribution.guarded_length := 0 |};
           tex_offset := 0; tex_offset_limit := 0 |} = Some s /\
    0 <= tex_offset s <= tex_offset_limit s.
Proof.
  destruct (Kernel_texture_window_within_limits 4
      {| WorkDistribution.offset := 512; WorkDistribution.length := 300;
         WorkDistribution.guarded_offset := 768;
         WorkDistribution.guarded_length := 44 |}
      {| work_limits :=
             {| WorkDistribution.offset := 0; WorkDistribution.length := 0;
                WorkDistribution.guarded_offset := 0;
                WorkDistribution.guarded_length := 0 |};
           tex_offset := 0; tex_offset_limit := 0 |})
    as (s & Hs & _ & Hw & _).
  - reflexivity.
  - cbv. intuition congruence.
  - exists s. split; [exact Hs | exact Hw].
Defined.

End DownsweepEntry.
